(** * wumpy: interaction dispatch, caches and extensions

    A shallow embedding of the parts of the wumpy libraries that the
    specification speaks about, one module per source file:

    - [Models]     wumpy/interactions/base.py (payload models, [respond])
    - [Slash]      wumpy/interactions/commands/slash.py
    - [Components] wumpy/interactions/components/component.py
    - [Cache]      wumpy/cache/in_memory/user.py
    - [Asgi]       wumpy/interactions/_asgi.py
    - [ContextMenu] wumpy/interactions/commands/context.py
    - [Ext]        wumpy/bot/_extension.py

    Python objects that are mutated in place are modelled by explicit state
    passing; exceptions are modelled by sum-like result types that name the
    exception class raised. *)

From stdpp Require Import gmap strings list fin_maps.

#[local] Set Warnings "-register-all".

Local Open Scope Z_scope.

(** ** Python values that cross the module boundaries *)

(** A JSON scalar as [json.loads] hands it over.  Numbers with a fraction are
    kept as their text: the code below never computes with them. *)
Inductive scalar :=
  | SStr (s : string)
  | SInt (z : Z)
  | SBool (b : bool)
  | SNumber (text : string).

(** A decoded JSON document.  A JSON object keeps the order of its keys, as
    a Python [dict] does. *)
Inductive json :=
  | JNull
  | JBool (b : bool)
  | JInt (z : Z)
  | JStr (s : string)
  | JList (items : list json)
  | JDict (entries : list (string * json)).

(** The events handed to the ASGI [send] callable.  [JsonDump j] is the
    body [json.dumps(j).encode()]: the document is kept, not its text. *)
Inductive asgi_body :=
  | Bytes (text : string)
  | JsonDump (document : json).

Inductive asgi_event :=
  | ResponseStart (status : Z) (headers : list (string * string))
  | ResponseBody (body : asgi_body)
  | LifespanEvent (type : string).

(** ** wumpy/interactions/base.py: the models *)
Module Models.

(** [class ComponentType(enum.Enum)] *)
Inductive ComponentType :=
  | action_row
  | button
  | select_menu.

(** [class ApplicationCommandOption(enum.Enum)] *)
Inductive ApplicationCommandOption :=
  | subcommand
  | subcommand_group
  | string_
  | integer
  | boolean
  | user
  | channel
  | role
  | mentionable
  | number.

(** [class CommandInteractionOption]: [value] is [data.get('value')], so it is
    [None] when the payload has no such key; [options] is the decoded list of
    nested options, empty when the payload has none. *)
Inductive CommandInteractionOption :=
  | MkOption (name : string) (type : ApplicationCommandOption)
             (value : option scalar) (options : list CommandInteractionOption).

Definition opt_name (o : CommandInteractionOption) : string :=
  match o with MkOption n _ _ _ => n end.

Definition opt_type (o : CommandInteractionOption) : ApplicationCommandOption :=
  match o with MkOption _ t _ _ => t end.

Definition opt_value (o : CommandInteractionOption) : option scalar :=
  match o with MkOption _ _ v _ => v end.

Definition opt_options (o : CommandInteractionOption) : list CommandInteractionOption :=
  match o with MkOption _ _ _ os => os end.

(** [class SelectInteractionValue] with its [__slots__].  A slot holds
    [None] until the first assignment to it: reading it then raises
    AttributeError.  Python's own [None] is [Some JNull]. *)
Record SelectInteractionValue := {
  label : option json;
  value : option json;
  description : option json;
  emoji : option json;
  default : option json
}.

(** [data.get(key)] on a payload dictionary. *)
Definition dict_get (data : gmap string json) (key : string) : json :=
  match data !! key with
  | Some v => v
  | None => JNull
  end.

Inductive KeyError := MkKeyError (key : string).

(** [SelectInteractionValue.__init__]:
<<
    self.label = data['label']
    self.value = data['value']
    self.description = data.get('description')
    self.emoji = data.get('emoji')
    self.emoji = data.get('default')
>>
    The object starts with every slot empty. *)
Definition SelectInteractionValue_init (data : gmap string json)
  : KeyError + SelectInteractionValue :=
  let self := {| label := None; value := None; description := None;
                 emoji := None; default := None |} in
  match data !! "label" with
  | None => inl (MkKeyError "label")
  | Some l =>
      let self := {| label := Some l; value := value self;
                     description := description self; emoji := emoji self;
                     default := default self |} in
      match data !! "value" with
      | None => inl (MkKeyError "value")
      | Some v =>
          let self := {| label := label self; value := Some v;
                         description := description self; emoji := emoji self;
                         default := default self |} in
          let self := {| label := label self; value := value self;
                         description := Some (dict_get data "description");
                         emoji := emoji self; default := default self |} in
          let self := {| label := label self; value := value self;
                         description := description self;
                         emoji := Some (dict_get data "emoji");
                         default := default self |} in
          let self := {| label := label self; value := value self;
                         description := description self;
                         emoji := Some (dict_get data "default");
                         default := default self |} in
          inr self
      end
  end.

(** A select option as the platform documents it, with an emoji and the
    default flag. *)
Definition red_option : gmap string json :=
  <["label" := JStr "Red"]> (<["value" := JStr "red"]>
  (<["emoji" := JDict [("name", JStr "red_circle")]]>
  (<["default" := JBool true]> ∅))).

(** A parameter whose default is the [MISSING] sentinel of
    [wumpy.rest.utils].  Modelled from the spec: the sentinel is a value of
    its own, distinct from every value a caller can pass, and false in a
    boolean context ([respond] relies on it: with the defaults it
    evaluates [allowed_mentions.data() if allowed_mentions else
    allowed_mentions] on the sentinel). *)
Inductive arg (A : Type) :=
  | MISSING
  | Given (a : A).
Arguments MISSING {A}.
Arguments Given {A} a.

(** The classes [AllowedMentions] (wumpy.models) and [ComponentList]
    (.components) are defined outside this file: their instances, the
    methods [respond] calls on them, their truth values, and what
    [json.dumps] makes of an instance itself ([None] when it is not JSON
    serializable; the document it is written as when it is, as an instance
    of a subclass of [dict] would be) are parameters. *)
Class ResponseModels := {
  AllowedMentions : Type;
  allowed_mentions_data : AllowedMentions → json;
  allowed_mentions_bool : AllowedMentions → bool;
  allowed_mentions_dumps : AllowedMentions → option json;
  Component : Type;
  ComponentList : Type;
  ComponentList_new : list Component → ComponentList;
  component_list_to_dict : ComponentList → json;
  component_list_bool : ComponentList → bool;
  component_list_dumps : ComponentList → option json
}.

Section Respond.
Context `{ResponseModels}.

(** A value of the [data] dictionary of [respond]. *)
Inductive field :=
  | FMissing
  | FJson (j : json)
  | FAllowedMentions (a : AllowedMentions)
  | FComponentList (c : ComponentList).

Definition field_of {A} (to_json : A → json) (a : arg A) : field :=
  match a with
  | MISSING => FMissing
  | Given x => FJson (to_json x)
  end.

(** [v is not MISSING] *)
Definition is_not_missing (f : field) : bool :=
  match f with
  | FMissing => false
  | _ => true
  end.

(** What [json.dumps] makes of one value of the dictionary; the sentinel
    is an object of a class of its own, which is not serializable. *)
Definition dump_field (f : field) : option json :=
  match f with
  | FJson j => Some j
  | FAllowedMentions a => allowed_mentions_dumps a
  | FComponentList c => component_list_dumps c
  | FMissing => None
  end.

(** What [json.dumps] makes of the dictionary: [None] stands for the
    TypeError raised on an object that is not JSON serializable. *)
Fixpoint dump_fields (data : list (string * field))
  : option (list (string * json)) :=
  match data with
  | [] => Some []
  | (k, f) :: rest =>
      match dump_field f with
      | Some j =>
          match dump_fields rest with
          | Some out => Some ((k, j) :: out)
          | None => None
          end
      | None => None
      end
  end.

Inductive respond_error := JsonTypeError.

(** [Interaction.respond]:
<<
    if isinstance(components, list):
        components = ComponentList( *components)
    data = {
        'content': content, 'tts': tts, 'embeds': embeds,
        'allowed_mentions':
            allowed_mentions.data() if allowed_mentions else allowed_mentions,
        'components': components.to_dict() if components else components
    }
    if ephemeral:
        data['flags'] = 1 << 6
    data = {k: v for k, v in data.items() if v is not MISSING}
    await self._send({'type': 'http.response.start', 'status': 200, ...})
    await self._send({'type': 'http.response.body',
                      'body': json.dumps({'type': 4, 'data': data}).encode()})
>>
    Returns what was handed to [self._send], in order, and the exception
    the call ends with, if any. *)
Definition respond
  (content : arg string) (tts : arg bool) (embeds : arg (list json))
  (allowed_mentions : arg AllowedMentions) (ephemeral : arg bool)
  (components : arg (list Component + ComponentList))
  : list asgi_event * option respond_error :=
  let components : arg ComponentList :=
    match components with
    | Given (inl l) => Given (ComponentList_new l)
    | Given (inr c) => Given c
    | MISSING => MISSING
    end in
  let data : list (string * field) :=
    [("content", field_of JStr content);
     ("tts", field_of JBool tts);
     ("embeds", field_of JList embeds);
     ("allowed_mentions",
       match allowed_mentions with
       | Given a =>
           if allowed_mentions_bool a then FJson (allowed_mentions_data a)
           else FAllowedMentions a
       | MISSING => FMissing
       end);
     ("components",
       match components with
       | Given c =>
           if component_list_bool c then FJson (component_list_to_dict c)
           else FComponentList c
       | MISSING => FMissing
       end)] in
  let data :=
    match ephemeral with
    | Given true => data ++ [("flags", FJson (JInt (Z.shiftl 1 6)))]
    | _ => data
    end in
  let data := filter (λ kv, is_not_missing kv.2 = true) data in
  let start :=
    ResponseStart 200 [("content-type", "application/json")] in
  match dump_fields data with
  | Some data =>
      ([start;
        ResponseBody (JsonDump (JDict [("type", JInt 4); ("data", JDict data)]))],
       None)
  | None => ([start], Some JsonTypeError)
  end.

End Respond.

Section Update.
Context `{ResponseModels}.

(** [ComponentInteraction.update]: the statements of [respond] once more,
    with [{'type': 7, 'data': data}] as the document of the body. *)
Definition update
  (content : arg string) (tts : arg bool) (embeds : arg (list json))
  (allowed_mentions : arg AllowedMentions) (ephemeral : arg bool)
  (components : arg (list Component + ComponentList))
  : list asgi_event * option respond_error :=
  let components : arg ComponentList :=
    match components with
    | Given (inl l) => Given (ComponentList_new l)
    | Given (inr c) => Given c
    | MISSING => MISSING
    end in
  let data : list (string * field) :=
    [("content", field_of JStr content);
     ("tts", field_of JBool tts);
     ("embeds", field_of JList embeds);
     ("allowed_mentions",
       match allowed_mentions with
       | Given a =>
           if allowed_mentions_bool a then FJson (allowed_mentions_data a)
           else FAllowedMentions a
       | MISSING => FMissing
       end);
     ("components",
       match components with
       | Given c =>
           if component_list_bool c then FJson (component_list_to_dict c)
           else FComponentList c
       | MISSING => FMissing
       end)] in
  let data :=
    match ephemeral with
    | Given true => data ++ [("flags", FJson (JInt (Z.shiftl 1 6)))]
    | _ => data
    end in
  let data := filter (λ kv, is_not_missing kv.2 = true) data in
  let start :=
    ResponseStart 200 [("content-type", "application/json")] in
  match dump_fields data with
  | Some data =>
      ([start;
        ResponseBody (JsonDump (JDict [("type", JInt 7); ("data", JDict data)]))],
       None)
  | None => ([start], Some JsonTypeError)
  end.

(** [Interaction.defer] and [ComponentInteraction.defer_update]: the
    literal bodies are the text [json.dumps] gives for these documents. *)
Definition defer : list asgi_event :=
  [ResponseStart 200 [("content-type", "application/json")];
   ResponseBody (JsonDump (JDict [("type", JInt 5)]))].

Definition defer_update : list asgi_event :=
  [ResponseStart 200 [("content-type", "application/json")];
   ResponseBody (JsonDump (JDict [("type", JInt 6)]))].

(** The response type of a body, replaced. *)
Definition with_type (type : Z) (event : asgi_event) : asgi_event :=
  match event with
  | ResponseBody (JsonDump (JDict (("type", _) :: rest))) =>
      ResponseBody (JsonDump (JDict (("type", JInt type) :: rest)))
  | _ => event
  end.

(** Whether an object is false in a boolean context and not JSON
    serializable. *)
Definition false_and_opaque {A} (truth : A → bool) (dumps : A → option json)
  (a : A) : bool :=
  negb (truth a) && bool_decide (dumps a = None).

(** Whether [allowed_mentions] or [components] is given as such an
    object. *)
Definition given_false_and_opaque
  (allowed_mentions : arg AllowedMentions)
  (components : arg (list Component + ComponentList)) : bool :=
  match allowed_mentions with
  | Given a => false_and_opaque allowed_mentions_bool allowed_mentions_dumps a
  | MISSING => false
  end
  || match components with
     | Given (inl l) =>
         false_and_opaque component_list_bool component_list_dumps
           (ComponentList_new l)
     | Given (inr c) =>
         false_and_opaque component_list_bool component_list_dumps c
     | MISSING => false
     end.

End Update.

(** Classes for concrete runs: an instance is false in a boolean context
    when it is empty; a [ComponentList] is a dictionary of components by
    name, which [json.dumps] writes as it is, and an [AllowedMentions] is
    an object that it cannot write. *)
Definition sample_models : ResponseModels :=
  {| AllowedMentions := list string;
     allowed_mentions_data := λ a, JList (JStr <$> a);
     allowed_mentions_bool := λ a, bool_decide (a ≠ []);
     allowed_mentions_dumps := λ _, None;
     Component := string * json;
     ComponentList := list (string * json);
     ComponentList_new := λ l, l;
     component_list_to_dict := λ c, JList (snd <$> c);
     component_list_bool := λ c, bool_decide (c ≠ []);
     component_list_dumps := λ c, Some (JDict c) |}.

(** [class ComponentInteraction]: the fields its own [__init__] sets
    ([message] is the raw payload of the message). *)
Record ComponentInteraction := {
  message : json;
  custom_id : string;
  component_type : ComponentType;
  values : list SelectInteractionValue
}.

Definition click (id : string) : ComponentInteraction :=
  {| message := JNull; custom_id := id; component_type := button; values := [] |}.

End Models.

(** ** wumpy/interactions/commands/slash.py *)
Module Slash.
Import Models.

(** A registered command is either a leaf [Command] (identified here by the
    name it was registered with) or a [SubcommandGroup] holding the
    [commands] dictionary, keyed by [command.name] (see [add_command]). *)
Inductive command :=
  | Command (name : string)
  | SubcommandGroup (name : string) (commands : gmap string command).

(** What an invocation ends in: the callback of a leaf command reached with
    the options handed to it, or the exception raised on the way. *)
Inductive outcome :=
  | Called (name : string) (options : list CommandInteractionOption)
  | ValueError
  | LookupError.

(** [option.type is ApplicationCommandOption.subcommand or
     option.type is ApplicationCommandOption.subcommand_group] *)
Definition is_subcommand_type (o : CommandInteractionOption) : bool :=
  match opt_type o with
  | subcommand | subcommand_group => true
  | _ => false
  end.

(** [self.commands.get(key)]: the dictionary has [str] keys only, so every
    key that is not a [str] (in particular [None]) misses. *)
Definition commands_get {A} (commands : gmap string A) (key : option scalar)
  : option A :=
  match key with
  | Some (SStr s) => commands !! s
  | _ => None
  end.

(** [_inner_call] of both classes.  Modelled from the spec: the
    [invoke] method of [CommandMiddlewareMixin] (commands/middleware.py) is
    taken with no middleware registered, where it is the call of
    [_inner_call] on the same arguments.

    [SubcommandGroup._inner_call]:
<<
    found = [option for option in options if ...subcommand types...]
    if not found: raise ValueError(...)
    subcommand = self.commands.get(found[0].value)
    if subcommand is None: raise LookupError(...)
    return await subcommand.invoke(interaction, found[0].options)
>>
    The dictionary is read through its bound [invoke] methods
    ([_inner_call <$> commands]), which keeps the recursion structural;
    [inner_call_unfold] states the equation with the lookup in [commands]
    itself. *)
Fixpoint _inner_call (self : command)
  : list CommandInteractionOption → outcome :=
  match self with
  | Command name => λ options, Called name options
  | SubcommandGroup _ commands =>
      let invoke := _inner_call <$> commands in
      λ options,
        match filter (λ o, is_subcommand_type o = true) options with
        | [] => ValueError
        | found0 :: _ =>
            match commands_get invoke (opt_value found0) with
            | None => LookupError
            | Some subcommand_invoke => subcommand_invoke (opt_options found0)
            end
        end
  end.

(** The lookup the specification describes, by the option's [name]; used
    only to compare with [_inner_call]. *)
Fixpoint spec_inner_call (self : command)
  : list CommandInteractionOption → outcome :=
  match self with
  | Command name => λ options, Called name options
  | SubcommandGroup _ commands =>
      let invoke := spec_inner_call <$> commands in
      λ options,
        match filter (λ o, is_subcommand_type o = true) options with
        | [] => ValueError
        | found0 :: _ =>
            match invoke !! opt_name found0 with
            | None => LookupError
            | Some subcommand_invoke => subcommand_invoke (opt_options found0)
            end
        end
  end.

(** The group of the specification's routing example: subcommands "add" and
    "remove". *)
Definition math_group : command :=
  SubcommandGroup "math"
    (<["add" := Command "add"]> (<["remove" := Command "remove"]> ∅)).

(** A subcommand option as the platform sends it: a name and nested options,
    no [value] key. *)
Definition remove_option : CommandInteractionOption :=
  MkOption "remove" subcommand None
    [MkOption "item" string_ (Some (SStr "x")) []].

(** *** Registration on a group *)

(** A command object as [add_command] and [remove_command] handle it: the
    object itself, named by its address, and its [name] attribute.  The
    [commands] dictionary of a group is read here as the mapping from names
    to the objects registered, an object being true in a boolean
    context. *)
Record registrable := {
  address : nat;
  registered_name : option string
}.

(** The four [raise] statements of [add_command] and [remove_command]. *)
Inductive registration_error :=
  | ValueError_unnamed
  | ValueError_already_registered (name : string)
  | ValueError_not_registered (name : string)
  | RuntimeError_not_the_command (name : string).

(** [SubcommandGroup.add_command]:
<<
    if command.name is None: raise ValueError('Cannot register unnamed command')
    if command.name in self.commands: raise ValueError(... already registered)
    self.commands[command.name] = command
>> *)
Definition add_command (commands : gmap string nat) (command : registrable)
  : registration_error + gmap string nat :=
  match registered_name command with
  | None => inl ValueError_unnamed
  | Some name =>
      match commands !! name with
      | Some _ => inl (ValueError_already_registered name)
      | None => inr (<[name := address command]> commands)
      end
  end.

(** [SubcommandGroup.remove_command]:
<<
    if command.name is None: raise ValueError('Cannot remove unnamed command')
    found = self.commands.get(command.name)
    if not found: raise ValueError(... Cannot find registered command)
    if found is not command: raise RuntimeError(...)
    del self.commands[command.name]
>> *)
Definition remove_command (commands : gmap string nat) (command : registrable)
  : registration_error + gmap string nat :=
  match registered_name command with
  | None => inl ValueError_unnamed
  | Some name =>
      match commands !! name with
      | None => inl (ValueError_not_registered name)
      | Some found =>
          if bool_decide (found = address command)
          then inr (delete name commands)
          else inl (RuntimeError_not_the_command name)
      end
  end.

(** *** The defaults of a command's callback *)

(** [inspect.Parameter.kind] *)
Inductive parameter_kind :=
  | POSITIONAL_ONLY
  | POSITIONAL_OR_KEYWORD
  | VAR_POSITIONAL
  | KEYWORD_ONLY
  | VAR_KEYWORD.

(** The attributes of an [OptionClass] (commands/option.py) that
    [_process_return_type] reads; [kind] and [param] are [None] until
    [update] has run. *)
Record OptionClass := {
  option_name : string;
  kind : option parameter_kind;
  param : option string;
  has_default : bool;
  default_value : scalar
}.

Inductive defaults_error :=
  | AssertionError
  | TypeError_default_order.

(** [option.kind in {option.kind.POSITIONAL_ONLY,
                     option.kind.POSITIONAL_OR_KEYWORD}] *)
Definition is_positional (k : parameter_kind) : bool :=
  match k with
  | POSITIONAL_ONLY | POSITIONAL_OR_KEYWORD => true
  | _ => false
  end.

(** The loop of [Command._process_return_type] over
    [self.options.values()], in registration order:
<<
    assert option.kind is not None and option.param is not None
    if option.kind in {POSITIONAL_ONLY, POSITIONAL_OR_KEYWORD}:
        if not option.has_default and pos_default:
            raise TypeError('option without default follows option with default')
        if option.has_default:
            pos_default = True
            defaults.append(option.default)
    else:
        if option.has_default:
            kw_defaults[option.param] = option.default
>>
    [kw_defaults] is a dictionary: a later value for a key replaces the
    earlier one. *)
Fixpoint collect_defaults (options : list OptionClass)
  (defaults : list scalar) (kw_defaults : gmap string scalar)
  (pos_default : bool)
  : defaults_error + (list scalar * gmap string scalar) :=
  match options with
  | [] => inr (defaults, kw_defaults)
  | o :: rest =>
      match kind o, param o with
      | Some k, Some p =>
          if is_positional k then
            if negb (has_default o) && pos_default
            then inl TypeError_default_order
            else if has_default o
            then collect_defaults rest (defaults ++ [default_value o])
                   kw_defaults true
            else collect_defaults rest defaults kw_defaults pos_default
          else
            if has_default o
            then collect_defaults rest defaults
                   (<[p := default_value o]> kw_defaults) pos_default
            else collect_defaults rest defaults kw_defaults pos_default
      | _, _ => inl AssertionError
      end
  end.

(** [Command._process_return_type], after the call of the method it
    overrides: the values it then assigns to [callback.__defaults__] and
    [callback.__kwdefaults__]. *)
Definition _process_return_type (options : list OptionClass)
  : defaults_error + (list scalar * gmap string scalar) :=
  collect_defaults options [] ∅ false.

(** Whether [update] has set [kind] and [param]. *)
Definition updated (o : OptionClass) : bool :=
  bool_decide (is_Some (kind o)) && bool_decide (is_Some (param o)).

(** A positional option, with or without a default. *)
Definition positional_with (default : bool) (o : OptionClass) : bool :=
  match kind o with
  | Some k => is_positional k && bool_decide (has_default o = default)
  | None => false
  end.

Definition plain_option (name : string) (k : parameter_kind)
  (default : option scalar) : OptionClass :=
  {| option_name := name; kind := Some k; param := Some name;
     has_default := bool_decide (is_Some default);
     default_value := match default with Some v => v | None => SInt 0 end |}.

(** An option without default that stands after a positional option with
    a default (or after the start, when [pos_default] is already set). *)
Definition out_of_order (pos_default : bool) (options : list OptionClass) : Prop :=
  ∃ before o after,
    options = before ++ o :: after ∧
    positional_with false o = true ∧
    (pos_default = true ∨ ∃ o', o' ∈ before ∧ positional_with true o' = true).

End Slash.

(** ** wumpy/interactions/components/component.py *)
Module Components.
Import Models.

(** A [Component] together with the objects its methods touch.  A [Result]
    object is named by the order of its creation; [results] holds the value
    of every [Result] whose [set] has run (its event is then set too).
    Callbacks are named by a string; [started] lists the calls handed to
    [tg.start_soon], oldest first. *)
Record state := {
  _callback : option string;
  _waiters : list ((ComponentInteraction → bool) * nat);
  results : gmap nat ComponentInteraction;
  created : nat;
  started : list (string * ComponentInteraction)
}.

(** [Component.__init__(callback)] *)
Definition Component (callback : option string) : state :=
  {| _callback := callback; _waiters := []; results := ∅; created := 0%nat;
     started := [] |}.

(** [Component.__call__] up to its suspension point:
<<
    event = Result()
    self._waiters.append((check, event))
>>
    Returns the new state and the [Result] the caller then waits on. *)
Definition call_register (st : state) (check : ComponentInteraction → bool)
  : state * nat :=
  let event := created st in
  ({| _callback := _callback st;
      _waiters := _waiters st ++ [(check, event)];
      results := results st;
      created := S (created st);
      started := started st |}, event).

(** How the suspended [with anyio.fail_after(timeout): await event.wait()]
    is resumed: by the event being set, or by the deadline. *)
Inductive wake :=
  | EventSet
  | DeadlinePassed.

Inductive wait_result :=
  | Returned (interaction : ComponentInteraction)
  | TimeoutError
  | RuntimeError.

(** The rest of [Component.__call__].  [Result.wait] returns [self.value],
    or raises RuntimeError when woken without one; [fail_after] raises
    TimeoutError at the deadline.  Neither path has a statement that
    touches [self._waiters]. *)
Definition call_resume (st : state) (event : nat) (w : wake)
  : state * wait_result :=
  match w with
  | DeadlinePassed => (st, TimeoutError)
  | EventSet =>
      (st, match results st !! event with
           | Some v => Returned v
           | None => RuntimeError
           end)
  end.

(** [result.set(interaction); self._waiters.pop(index)] *)
Definition resolve (st : state) (index result : nat)
  (interaction : ComponentInteraction) : state :=
  {| _callback := _callback st;
     _waiters := delete index (_waiters st);
     results := <[result := interaction]> (results st);
     created := created st;
     started := started st |}.

(** The [for index, (check, result) in enumerate(self._waiters)] loop.  The
    list iterator keeps a position into the list object itself and stops
    once the position is past the end of the list as it then is;
    [enumerate] counts the items handed out, so [index] is that position.
    [None]: the bound on the number of iterations was too small. *)
Fixpoint waiters_loop (fuel : nat) (index : nat)
  (interaction : ComponentInteraction) (st : state) : option state :=
  match _waiters st !! index with
  | None => Some st
  | Some (check, result) =>
      match fuel with
      | O => None
      | S fuel' =>
          waiters_loop fuel' (S index) interaction
            (if (check interaction : bool)
             then resolve st index result interaction
             else st)
      end
  end.

(** [Component.handle_interaction]:
<<
    if self._callback is not None:
        tg.start_soon(self._callback, interaction)
    for index, (check, result) in enumerate(self._waiters):
        if check(interaction):
            result.set(interaction)
            self._waiters.pop(index)
>> *)
Definition handle_interaction (st : state) (interaction : ComponentInteraction)
  : option state :=
  let st :=
    match _callback st with
    | Some callback =>
        {| _callback := _callback st; _waiters := _waiters st;
           results := results st; created := created st;
           started := started st ++ [(callback, interaction)] |}
    | None => st
    end in
  waiters_loop (length (_waiters st)) 0 interaction st.

(** A [Component.__call__] that is resumed by its deadline, in the schedule
    where nothing else touches the component while the call is suspended:
    the state it leaves, the [Result] it had registered, and how it ends.
    Other schedules are runs of [run] between [call_register] and
    [call_resume]. *)
Definition wait_until_deadline (st : state)
  (check : ComponentInteraction → bool) : state * nat * wait_result :=
  let '(st1, event) := call_register st check in
  let '(st2, r) := call_resume st1 event DeadlinePassed in
  (st2, event, r).

Definition accept_all : ComponentInteraction → bool := λ _, true.

(** Two waits registered on a fresh component, both accepting anything. *)
Definition two_waiters : state :=
  (call_register (call_register (Component None) accept_all).1 accept_all).1.

(** [Component.set_callback(callback, *, override=False)]: [None] for the
    RuntimeError raised when a callback is set already and [override] is
    false. *)
Definition set_callback (st : state) (callback : string) (override : bool)
  : option state :=
  match _callback st with
  | Some _ =>
      if override
      then Some {| _callback := Some callback; _waiters := _waiters st;
                   results := results st; created := created st;
                   started := started st |}
      else None
  | None =>
      Some {| _callback := Some callback; _waiters := _waiters st;
              results := results st; created := created st;
              started := started st |}
  end.

(** What else can happen to a component while a call of [__call__] is
    suspended in its [await]: another call registers its waiter, an
    interaction is handed to [handle_interaction], another suspended call
    is resumed, a callback is set. *)
Inductive activity :=
  | Wait (check : ComponentInteraction → bool)
  | Deliver (interaction : ComponentInteraction)
  | Resume (event : nat) (w : wake)
  | SetCallback (callback : string) (override : bool).

(** One activity on the component; a [set_callback] that raises leaves the
    component as it was.  [None]: [handle_interaction] ran out of its
    bound. *)
Definition step (st : state) (a : activity) : option state :=
  match a with
  | Wait check => Some (call_register st check).1
  | Deliver interaction => handle_interaction st interaction
  | Resume event w => Some (call_resume st event w).1
  | SetCallback callback override =>
      Some (match set_callback st callback override with
            | Some st' => st'
            | None => st
            end)
  end.

(** Activities one after the other. *)
Fixpoint run (activities : list activity) (st : state) : option state :=
  match activities with
  | [] => Some st
  | a :: rest =>
      match step st a with
      | Some st' => run rest st'
      | None => None
      end
  end.

(** Every [Result] that is pending or set was created before. *)
Definition numbered (st : state) : Prop :=
  (∀ event, is_Some (results st !! event) → (event < created st)%nat) ∧
  (∀ w, w ∈ _waiters st → (w.2 < created st)%nat).

(** A predicate on the [custom_id] of the interaction. *)
Definition with_id (id : string) : ComponentInteraction → bool :=
  λ interaction, bool_decide (custom_id interaction = id).

(** The activities that leave two waits pending on a fresh component. *)
Definition two_waits : list activity :=
  [Wait (with_id "first"); Wait (with_id "second")].

Definition two_pending : state :=
  (call_register (call_register (Component None) (with_id "first")).1
     (with_id "second")).1.

(** *** [class ComponentEmoji] *)

Import Stdlib.Strings.Ascii.

(** [DISCORD_EPOCH] is imported from [wumpy.models]: a parameter. *)
Class Epoch := DISCORD_EPOCH : Z.

Record ComponentEmoji := {
  emoji_animated : bool;
  emoji_name : string;
  emoji_id : Z
}.

(** The right operand of [ComponentEmoji.__eq__]. *)
Inductive operand :=
  | OInt (z : Z)
  | OStr (s : string)
  | OEmoji (e : ComponentEmoji)
  | OOther.

(** [ComponentEmoji.__eq__]; [None] is [NotImplemented]. *)
Definition emoji_eq (self : ComponentEmoji) (other : operand) : option bool :=
  match other with
  | OInt z => Some (bool_decide (emoji_id self = z))
  | OStr s => Some (bool_decide (emoji_name self = s))
  | OEmoji e =>
      Some (bool_decide (emoji_id self = emoji_id e)
            && bool_decide (emoji_name self = emoji_name e)
            && bool_decide (emoji_animated self = emoji_animated e))
  | OOther => None
  end.

(** [ComponentEmoji.to_dict]: none of the three values is [None], so the
    filter keeps them all. *)
Definition emoji_to_dict (self : ComponentEmoji) : json :=
  JDict [("name", JStr (emoji_name self));
         ("id", JInt (emoji_id self));
         ("animated", JBool (emoji_animated self))].

Definition is_digit (c : Ascii.ascii) : bool :=
  let n := Ascii.nat_of_ascii c in
  (48 <=? n)%nat && (n <=? 57)%nat.

(** The class [[A-Za-z0-9\_]] *)
Definition is_word (c : Ascii.ascii) : bool :=
  let n := Ascii.nat_of_ascii c in
  is_digit c || ((65 <=? n)%nat && (n <=? 90)%nat)
  || ((97 <=? n)%nat && (n <=? 122)%nat) || (n =? 95)%nat.

(** The longest prefix of characters in a class, and what follows it. *)
Fixpoint span (p : Ascii.ascii → bool) (s : string) : string * string :=
  match s with
  | EmptyString => (EmptyString, EmptyString)
  | String c s' =>
      if p c then let '(a, b) := span p s' in (String c a, b)
      else (EmptyString, s)
  end.

Fixpoint string_take (n : nat) (s : string) : string :=
  match n, s with
  | S n', String c s' => String c (string_take n' s')
  | _, _ => EmptyString
  end.

(** A literal character at the head of the text. *)
Definition eat (c : Ascii.ascii) (s : string) : option string :=
  match s with
  | String c' s' => if bool_decide (c' = c) then Some s' else None
  | EmptyString => None
  end.

(** [x?] before the rest [k] of a pattern, as the backtracking matcher of
    [re] runs it: the character is taken when it is there, and given back
    when the rest then fails.  [k] is told whether it was taken. *)
Definition optional {A} (c : Ascii.ascii) (k : bool → string → option A)
  (s : string) : option A :=
  match eat c s with
  | Some s' =>
      match k true s' with
      | Some r => Some r
      | None => k false s
      end
  | None => k false s
  end.

(** [(?P<name>[A-Za-z0-9\_]+):(?P<id>[0-9]{13,20})>?] at the head of the
    text.  The name is the longest run of word characters: a shorter one is
    followed by a word character, never by the colon.  The id is the run
    of digits that follows, cut at twenty. *)
Definition match_name_id (s : string) : option (string * string) :=
  let '(name, rest) := span is_word s in
  match name with
  | EmptyString => None
  | _ =>
      match eat ":"%char rest with
      | None => None
      | Some rest =>
          let digits := string_take 20 (span is_digit rest).1 in
          if (String.length digits <? 13)%nat then None
          else Some (name, digits)
      end
  end.

(** [REGEX.match(value)] for
    [<?(?P<animated>a)?:?(?P<name>[A-Za-z0-9\_]+):(?P<id>[0-9]{13,20})>?]:
    whether the group [animated] took part, and the groups [name] and
    [id]. *)
Definition REGEX_match (value : string) : option (bool * string * string) :=
  optional "<"%char (λ _ s,
    optional "a"%char (λ animated s,
      optional ":"%char (λ _ s,
        match match_name_id s with
        | Some (name, id) => Some (animated, name, id)
        | None => None
        end) s) s) value.

(** [int(text)] on a run of ASCII digits. *)
Fixpoint decimal (s : string) (acc : Z) : Z :=
  match s with
  | EmptyString => acc
  | String c s' => decimal s' (10 * acc + (Z.of_nat (Ascii.nat_of_ascii c) - 48))
  end.

(** [ComponentEmoji.from_string]:
<<
    match = cls.REGEX.match(value)
    if match:
        return cls(name=match.group('name'),
                   animated=bool(match.group('animated')),
                   id=int(match.group('id')))
    return cls(name=value)
>> *)
Definition from_string `{Epoch} (value : string) : ComponentEmoji :=
  match REGEX_match value with
  | Some (animated, name, id) =>
      {| emoji_animated := animated; emoji_name := name;
         emoji_id := decimal id 0 |}
  | None =>
      {| emoji_animated := false; emoji_name := value;
         emoji_id := Z.shiftl DISCORD_EPOCH 22 |}
  end.

Fixpoint all_chars (p : Ascii.ascii → bool) (s : string) : bool :=
  match s with
  | EmptyString => true
  | String c s' => p c && all_chars p s'
  end.

(** A text in which no colon occurs. *)
Definition no_colon (s : string) : bool :=
  all_chars (λ c, negb (bool_decide (c = ":"%char))) s.

End Components.

(** ** wumpy/cache/in_memory/user.py *)
Module Cache.

(** The values found in user and member payloads: [None], [int] and [str].
    Between values of these three types Python's [==] is equality of type
    and content. *)
Inductive pyval :=
  | PNone
  | PInt (z : Z)
  | PStr (s : string).

#[export] Instance pyval_eq_dec : EqDecision pyval.
Proof. solve_decision. Defined.

#[export] Instance pyval_countable : Countable pyval.
Proof.
  apply (inj_countable'
    (λ v, match v with
          | PNone => inl ()
          | PInt z => inr (inl z)
          | PStr s => inr (inr s)
          end)
    (λ e, match e with
          | inl _ => PNone
          | inr (inl z) => PInt z
          | inr (inr s) => PStr s
          end)).
  by intros [].
Defined.

(** [a == b] *)
Definition py_eq (a b : pyval) : bool := bool_decide (a = b).

Definition digit_of (c : Ascii.ascii) : option Z :=
  let n := Z.of_nat (Ascii.nat_of_ascii c) in
  if bool_decide (48 ≤ n ≤ 57) then Some (n - 48) else None.

Fixpoint parse_digits (s : string) (acc : Z) : option Z :=
  match s with
  | EmptyString => Some acc
  | String c s' =>
      match digit_of c with
      | Some d => parse_digits s' (10 * acc + d)
      | None => None
      end
  end.

(** Python's [int(x)], [None] where it raises.  For text the model reads
    the plain ASCII decimal numerals in which the platform writes its ids;
    any other text is reported as the ValueError that [int] raises on text
    that is not a numeral. *)
Definition py_int (x : pyval) : option Z :=
  match x with
  | PInt z => Some z
  | PStr EmptyString => None
  | PStr s => parse_digits s 0
  | PNone => None
  end.

(** [UserData] of [discord_typings]: [id] is a [Snowflake], declared there
    as [Union[str, int]]; [public_flags] may be missing from the payload. *)
Record UserData := {
  ud_id : pyval;
  ud_username : pyval;
  ud_discriminator : pyval;
  ud_public_flags : option pyval
}.

(** [GuildMemberData], whose ['guild_id'] is an extra key that may be
    missing. *)
Record GuildMemberData := {
  gm_guild_id : option pyval;
  gm_user : UserData;
  gm_nick : pyval
}.

(** [wumpy.models.User], of which this file uses four attributes.  [id] is
    the integer a [Model] is built with ([Model.__init__(int(data['id']))]
    in interactions/base.py; [_users] is a
    [WeakValueDictionary[int, User]]). *)
Record User := {
  u_id : Z;
  u_name : pyval;
  u_discriminator : pyval;
  u_public_flags : pyval
}.

(** [User.from_data] is defined outside this file: a parameter. *)
Class UserModel := User_from_data : UserData → User.

(** [wumpy.models.Member].  Modelled from the spec: a Member wraps a User by
    reference plus guild-scoped attributes, and is identified by the id of
    its user. *)
Record Member := {
  m_id : Z;
  m_user : nat;
  m_data : GuildMemberData
}.

(** Modelled from the spec: [Member.from_user(user, data)], [user] being
    the object at address [ref]. *)
Definition Member_from_user (ref : nat) (user : User) (data : GuildMemberData)
  : Member :=
  {| m_id := u_id user; m_user := ref; m_data := data |}.

(** The cache object (both classes are mixed into one cache) and the [User]
    objects alive, by address.  [_users] holds addresses: its values are
    weak references, and an entry whose object is gone reads as absent;
    [collect] below is the step in which objects go.
    The key of [_members] is a Python tuple, here of whatever the first
    component was when stored and an integer. *)
Record cache := {
  objects : gmap nat User;
  _users : gmap Z nat;
  _members : gmap (pyval * Z) Member
}.

Definition empty_cache : cache :=
  {| objects := ∅; _users := ∅; _members := ∅ |}.

Inductive exception :=
  | ValueError
  | TypeError.

(** The exception of a failing [int(x)]. *)
Definition int_error (x : pyval) : exception :=
  match x with
  | PStr _ => ValueError
  | _ => TypeError
  end.

(** [self._users.get(key)] *)
Definition users_get (c : cache) (key : Z) : option (nat * User) :=
  match _users c !! key with
  | Some ref =>
      match objects c !! ref with
      | Some u => Some (ref, u)
      | None => None
      end
  | None => None
  end.

(** [_users] is a [WeakValueDictionary]: it keeps no [User] alive.  A run
    of the garbage collector that frees the objects at the addresses
    [garbage] (objects that nothing else refers to) takes their entries
    out of [_users]. *)
Definition collect (c : cache) (garbage : gset nat) : cache :=
  {| objects := filter (λ entry, entry.1 ∉ garbage) (objects c);
     _users := filter (λ entry, entry.2 ∉ garbage) (_users c);
     _members := _members c |}.

(** [data.get('public_flags')] *)
Definition get_public_flags (data : UserData) : pyval :=
  match ud_public_flags data with
  | Some v => v
  | None => PNone
  end.

(** The condition of [_store_user] on a cached [user]; an instance of
    [User] is true in a boolean context. *)
Definition up_to_date (user : User) (data : UserData) : bool :=
  py_eq (PInt (u_id user)) (ud_id data)
  && py_eq (u_name user) (ud_username data)
  && py_eq (u_discriminator user) (ud_discriminator data)
  && py_eq (u_public_flags user) (get_public_flags data).

(** [UserMemoryCache._store_user]:
<<
    user = self._users.get(int(data['id']))
    if (user and user.id == data['id'] and user.name == data['username']
            and user.discriminator == data['discriminator']
            and user.public_flags == data.get('public_flags')):
        return user
    user = User.from_data(data)
    self._users[int(data['id'])] = user
    return user
>>
    Returns the cache and the address of the returned object. *)
Definition _store_user `{UserModel} (c : cache) (data : UserData)
  : exception + (cache * nat) :=
  match py_int (ud_id data) with
  | None => inl (int_error (ud_id data))
  | Some key =>
      let construct :=
        let ref := fresh (dom (objects c)) in
        inr ({| objects := <[ref := User_from_data data]> (objects c);
                _users := <[key := ref]> (_users c);
                _members := _members c |}, ref) in
      match users_get c key with
      | Some (ref, user) =>
          if up_to_date user data then inr (c, ref) else construct
      | None => construct
      end
  end.

(** [MemberMemoryCache._process_guild_member_add]:
<<
    if 'guild_id' not in data: raise ValueError(...)
    guild_id = data['guild_id']
    user = self._store_user(data['user'])
    member = Member.from_user(user, data)
    self._members[(guild_id, member.id)] = member
    return (None, member)
>> *)
Definition _process_guild_member_add `{UserModel} (c : cache)
  (data : GuildMemberData) : exception + (cache * Member) :=
  match gm_guild_id data with
  | None => inl ValueError
  | Some guild_id =>
      match _store_user c (gm_user data) with
      | inl e => inl e
      | inr (c, ref) =>
          match objects c !! ref with
          | None => inl TypeError
          | Some user =>
              let member := Member_from_user ref user data in
              inr ({| objects := objects c;
                      _users := _users c;
                      _members := <[(guild_id, m_id member) := member]> (_members c) |},
                   member)
          end
      end
  end.

(** [MemberMemoryCache.get_member]:
    [return self._members.get((int(guild), int(user)))] *)
Definition get_member (c : cache) (guild user : pyval)
  : exception + option Member :=
  match py_int guild with
  | None => inl (int_error guild)
  | Some g =>
      match py_int user with
      | None => inl (int_error user)
      | Some u => inr (_members c !! (PInt g, u))
      end
  end.

(** A user payload and a member payload as the platform sends them, ids
    written as text. *)
Definition alice : UserData :=
  {| ud_id := PStr "42"; ud_username := PStr "alice";
     ud_discriminator := PStr "0001"; ud_public_flags := None |}.

Definition alice_joins : GuildMemberData :=
  {| gm_guild_id := Some (PStr "7"); gm_user := alice; gm_nick := PNone |}.

(** The key [(data['guild_id'], data['user']['id'])] of
    [_process_guild_member_remove] among the keys of [_members].  The keys
    stored have an integer as second component ([member.id]); a tuple is
    equal to one of them only when its own second component is that
    integer, which text and [None] never are. *)
Definition members_key (guild_id user_id : pyval) : option (pyval * Z) :=
  match user_id with
  | PInt u => Some (guild_id, u)
  | _ => None
  end.

(** [MemberMemoryCache._process_guild_member_remove]:
<<
    if 'guild_id' not in data: raise ValueError(...)
    return (self._members.pop(
        (data['guild_id'], data['user']['id']), None), None)
>>
    Returns the cache and the first component of the tuple. *)
Definition _process_guild_member_remove (c : cache) (data : GuildMemberData)
  : exception + (cache * option Member) :=
  match gm_guild_id data with
  | None => inl ValueError
  | Some guild_id =>
      match members_key guild_id (ud_id (gm_user data)) with
      | Some key =>
          inr ({| objects := objects c; _users := _users c;
                  _members := delete key (_members c) |},
               _members c !! key)
      | None => inr (c, None)
      end
  end.

(** [MemberMemoryCache._process_guild_member_update]:
<<
    return (self._process_guild_member_remove(data)[0],
            self._process_guild_member_add(data)[1])
>>
    An exception comes with the cache as it is left. *)
Definition _process_guild_member_update `{UserModel} (c : cache)
  (data : GuildMemberData)
  : exception * cache + cache * (option Member * Member) :=
  match _process_guild_member_remove c data with
  | inl e => inl (e, c)
  | inr (c, previous) =>
      match _process_guild_member_add c data with
      | inl e => inl (e, c)
      | inr (c, member) => inr (c, (previous, member))
      end
  end.

(** A [User.from_data] that keeps the four values of the payload, for
    concrete runs. *)
Definition plain_user_model : UserModel :=
  λ data,
    {| u_id := match py_int (ud_id data) with Some z => z | None => 0 end;
       u_name := ud_username data;
       u_discriminator := ud_discriminator data;
       u_public_flags := get_public_flags data |}.

(** Payloads with integer ids. *)
Definition bob : UserData :=
  {| ud_id := PInt 43; ud_username := PStr "bob";
     ud_discriminator := PStr "0002"; ud_public_flags := Some (PInt 0) |}.

Definition bob_joins (guild : Z) : GuildMemberData :=
  {| gm_guild_id := Some (PInt guild); gm_user := bob; gm_nick := PNone |}.

(** The member objects and the cache that the add handler leaves for these
    payloads, run on the empty cache with [plain_user_model]. *)
Definition alice_member : Member :=
  {| m_id := 42; m_user := 0; m_data := alice_joins |}.

Definition alice_cached : cache :=
  {| objects := {[0%nat := plain_user_model alice]};
     _users := {[42 := 0%nat]};
     _members := {[(PStr "7", 42) := alice_member]} |}.

(** The cache after [_store_user] on the empty cache for [bob]. *)
Definition bob_stored : cache :=
  {| objects := {[0%nat := plain_user_model bob]};
     _users := {[43 := 0%nat]};
     _members := ∅ |}.

End Cache.

(** ** wumpy/interactions/_asgi.py *)
Module Asgi.

(** The ASGI connection scope: the keys this file reads. *)
Record scope := {
  scope_type : string;
  scope_path : string;
  scope_method : string;
  scope_headers : list (string * string)
}.

(** An event handed out by the ASGI [receive] callable, as the dictionary
    it is: the ['type'] every event has, and the keys ['body'] and
    ['more_body'], which an event may lack ([http.disconnect] has neither,
    and a server may leave out ['more_body']). *)
Record incoming := {
  in_type : string;
  in_body : option string;
  in_more_body : option bool
}.

(** A request event that carries both keys. *)
Record received := {
  ev_type : string;
  ev_body : string;
  ev_more_body : bool
}.

Definition carrying (event : received) : incoming :=
  {| in_type := ev_type event;
     in_body := Some (ev_body event);
     in_more_body := Some (ev_more_body event) |}.

(** How an awaited method ends: it returns a value, it stays suspended in
    [await receive()] because the server has no further event, or it
    raises. *)
Inductive awaited (A : Type) :=
  | Returned (value : A)
  | Waiting
  | Raising (exception : string).
Arguments Returned {A} value.
Arguments Waiting {A}.
Arguments Raising {A} exception.

(** How a call of the application ends: it returns, it raises, or it stays
    suspended in [await receive()]. *)
Inductive ending :=
  | Return
  | Raise (exception : string)
  | Pending.

(** What this file uses and does not define: the wrapped [InteractionApp]
    (its signature check, taken to return, and its managed start and stop),
    [json.loads] (the document, or the name of the exception it raises),
    and the [handle_interaction] the last line of [__call__] calls on
    [self].  The signature is handed to the check as text; here it is the
    byte string that text is the UTF-8 decoding of. *)
Class App := {
  authenticate_request : string → string → string → bool;
  aenter_succeeds : bool;
  aexit_succeeds : bool;
  json_loads : string → string + json;
  handle_interaction : json → scope → list incoming → list asgi_event * ending
}.

(** [InteractionASGIApp.__init__(app, *, method='POST', path='/')] *)
Record InteractionASGIApp := {
  method : string;
  path : string
}.

(** Whether a byte lies between two values. *)
Definition byte_in (lo hi : N) (c : Ascii.ascii) : bool :=
  ((lo <=? Ascii.N_of_ascii c) && (Ascii.N_of_ascii c <=? hi))%N.

(** A continuation byte of UTF-8. *)
Definition continuation (c : Ascii.ascii) : bool := byte_in 0x80 0xBF c.

(** The first two bytes of a three-byte sequence: no overlong form (E0
    needs A0..BF) and no surrogate (ED needs 80..9F). *)
Definition three_bytes (c0 c1 : Ascii.ascii) : bool :=
  byte_in 0xE0 0xE0 c0 && byte_in 0xA0 0xBF c1
  || byte_in 0xE1 0xEC c0 && continuation c1
  || byte_in 0xED 0xED c0 && byte_in 0x80 0x9F c1
  || byte_in 0xEE 0xEF c0 && continuation c1.

(** The first two bytes of a four-byte sequence: no overlong form (F0 needs
    90..BF) and nothing above U+10FFFF (F4 needs 80..8F). *)
Definition four_bytes (c0 c1 : Ascii.ascii) : bool :=
  byte_in 0xF0 0xF0 c0 && byte_in 0x90 0xBF c1
  || byte_in 0xF1 0xF3 c0 && continuation c1
  || byte_in 0xF4 0xF4 c0 && byte_in 0x80 0x8F c1.

(** Whether [bytes.decode('utf-8')] succeeds: the byte string is a run of
    well-formed UTF-8 sequences (the decoder is strict). *)
Fixpoint utf8_valid (s : string) : bool :=
  match s with
  | EmptyString => true
  | String c0 s1 =>
      if byte_in 0x00 0x7F c0 then utf8_valid s1
      else
        match s1 with
        | EmptyString => false
        | String c1 s2 =>
            if byte_in 0xC2 0xDF c0 then continuation c1 && utf8_valid s2
            else
              match s2 with
              | EmptyString => false
              | String c2 s3 =>
                  if three_bytes c0 c1 then continuation c2 && utf8_valid s3
                  else
                    match s3 with
                    | EmptyString => false
                    | String c3 s4 =>
                        four_bytes c0 c1 && continuation c2
                        && continuation c3 && utf8_valid s4
                    end
              end
        end
  end.

Section Endpoint.
Context `{App}.

(** [_lifespan]: one event is awaited, and acknowledged if it is a startup
    or a shutdown. *)
Definition _lifespan (receive : list incoming) : list asgi_event * ending :=
  match receive with
  | [] => ([], Pending)
  | event :: _ =>
      if bool_decide (in_type event = "lifespan.startup") then
        ([LifespanEvent (if aenter_succeeds then "lifespan.startup.complete"
                         else "lifespan.startup.failed")], Return)
      else if bool_decide (in_type event = "lifespan.shutdown") then
        ([LifespanEvent (if aexit_succeeds then "lifespan.shutdown.complete"
                         else "lifespan.shutdown.failed")], Return)
      else ([], Return)
  end.

(** [_verify_request_target]: the events sent and the boolean returned.
<<
    if scope['type'] != 'http': ... 501 ...; return True
    if scope['path'] != self.path: ... 404 ...; return True
    elif scope['method'] != 'POST': ... 405 ...; return True
    return False
>> *)
Definition _verify_request_target (self : InteractionASGIApp) (sc : scope)
  : list asgi_event * bool :=
  if bool_decide (scope_type sc ≠ "http") then
    ([ResponseStart 501 [("content-type", "text/plain")];
      ResponseBody (Bytes "Not Implemented")], true)
  else if bool_decide (scope_path sc ≠ path self) then
    ([ResponseStart 404 [("content-type", "text/plain")];
      ResponseBody (Bytes "Not Found")], true)
  else if bool_decide (scope_method sc ≠ "POST") then
    ([ResponseStart 405 [("content-type", "text/plain")];
      ResponseBody (Bytes "Method Not Allowed")], true)
  else ([], false).

(** The loop over [scope['headers']] of [_authenticate_request]: [None] is
    its early [return False, None]; otherwise the signature and the
    timestamp it has found. *)
Fixpoint scan_headers (headers : list (string * string))
  (signature timestamp : option string)
  : option (option string * option string) :=
  match headers with
  | [] => Some (signature, timestamp)
  | (header, value) :: rest =>
      if bool_decide (header = "content-type")
         && bool_decide (value ≠ "application/json")
      then None
      else if bool_decide (header = "x-signature-timestamp")
      then scan_headers rest signature (Some value)
      else if bool_decide (header = "x-signature-ed25519")
      then scan_headers rest (Some value) timestamp
      else scan_headers rest signature timestamp
  end.

(** The loop
<<
    request = {'more_body': True}
    while request['more_body']:
        request = await receive()
        body.extend(request['body'])
>>
    Each turn awaits one event, subscripts ['body'], and then, in the test
    of the loop, ['more_body']: a missing key is a KeyError. *)
Fixpoint receive_body (receive : list incoming) (body : string)
  : awaited string :=
  match receive with
  | [] => Waiting
  | request :: rest =>
      match in_body request with
      | None => Raising "KeyError"
      | Some chunk =>
          let body := (body +:+ chunk)%string in
          match in_more_body request with
          | None => Raising "KeyError"
          | Some true => receive_body rest body
          | Some false => Returned body
          end
      end
  end.

(** The same loop on events that all carry both keys; [None] when the
    events run out first. *)
Fixpoint read_body (receive : list received) (body : string) : option string :=
  match receive with
  | [] => None
  | request :: rest =>
      let body := (body +:+ ev_body request)%string in
      if ev_more_body request then read_body rest body else Some body
  end.

(** [_authenticate_request]: the pair [(verified, body)] it returns, unless
    the call stays suspended in [receive] or raises.  The arguments of
    [self._app.authenticate_request] are evaluated once the body is read:
    [signature.decode('utf-8')] comes first and raises on a signature that
    is not UTF-8. *)
Definition _authenticate_request (sc : scope) (receive : list incoming)
  : awaited (bool * option string) :=
  match scan_headers (scope_headers sc) None None with
  | None => Returned (false, None)
  | Some (Some signature, Some timestamp) =>
      match receive_body receive "" with
      | Waiting => Waiting
      | Raising exception => Raising exception
      | Returned body =>
          if utf8_valid signature then
            if authenticate_request signature timestamp body
            then Returned (true, Some body)
            else Returned (false, Some body)
          else Raising "UnicodeDecodeError"
      end
  | Some _ => Returned (false, None)
  end.

(** [data['type'] == 1] on the decoded body, or the exception of the
    subscript.  Of a key written twice [json.loads] keeps the last value;
    [True == 1] holds in Python. *)
Definition is_ping (data : json) : string + bool :=
  match data with
  | JDict entries =>
      match list_find (λ kv, kv.1 = "type") (reverse entries) with
      | Some (_, (_, JInt 1)) | Some (_, (_, JBool true)) => inr true
      | Some _ => inr false
      | None => inl "KeyError"
      end
  | _ => inl "TypeError"
  end.

(** The literal [b'{"type": 1}'], the body of the answer to a ping; the
    double quote is written by its code, 34. *)
Definition pong : string :=
  ("{" +:+ String (Ascii.ascii_of_nat 34) "type"
       +:+ String (Ascii.ascii_of_nat 34) ": 1}")%string.

(** [InteractionASGIApp.__call__] *)
Definition __call__ (self : InteractionASGIApp) (sc : scope)
  (receive : list incoming) : list asgi_event * ending :=
  if bool_decide (scope_type sc = "lifespan") then _lifespan receive
  else
    let '(sent, responded) := _verify_request_target self sc in
    if responded then (sent, Return)
    else
      match _authenticate_request sc receive with
      | Waiting => (sent, Pending)
      | Raising exception => (sent, Raise exception)
      | Returned (true, Some body) =>
          match json_loads body with
          | inl exception => (sent, Raise exception)
          | inr data =>
              match is_ping data with
              | inl exception => (sent, Raise exception)
              | inr true =>
                  (sent ++ [ResponseStart 200 [("content-type", "application/json")];
                            ResponseBody (Bytes pong)], Return)
              | inr false =>
                  let '(sent', e) := handle_interaction data sc receive in
                  (sent ++ sent', e)
              end
          end
      | Returned _ =>
          (sent ++ [ResponseStart 401 [("content-type", "text/plain")];
                    ResponseBody (Bytes "Unauthorized")], Return)
      end.

(** [__call__] under a server whose request events all carry both keys. *)
Definition call (self : InteractionASGIApp) (sc : scope)
  (receive : list received) : list asgi_event * ending :=
  __call__ self sc (carrying <$> receive).

End Endpoint.

(** The two events of a plain-text answer with a given status, for the
    statements that name one. *)
Definition plain (status : Z) (text : string) : list asgi_event :=
  [ResponseStart status [("content-type", "text/plain")];
   ResponseBody (Bytes text)].

(** The least body that is a ping: the text [{"type": 1}]. *)
Definition ping_text : string :=
  ("{" +:+ String (Ascii.ascii_of_nat 34) "type"
       +:+ String (Ascii.ascii_of_nat 34) ": 1}")%string.

(** [json.loads] on the few texts the concrete runs below hand it. *)
Definition sample_loads (body : string) : string + json :=
  if bool_decide (body = ping_text) then inr (JDict [("type", JInt 1)])
  else if bool_decide (body = "{}") then inr (JDict [])
  else inl "JSONDecodeError".

(** An application whose signature check accepts everything, for concrete
    runs of the endpoint. *)
Definition open_app : App :=
  {| authenticate_request := λ _ _ _, true;
     aenter_succeeds := true;
     aexit_succeeds := true;
     json_loads := sample_loads;
     handle_interaction := λ _ _ _, ([], Return) |}.

Definition endpoint : InteractionASGIApp := {| method := "POST"; path := "/" |}.

Definition get_elsewhere : scope :=
  {| scope_type := "http"; scope_path := "/other"; scope_method := "GET";
     scope_headers := [] |}.

Definition post_unsigned : scope :=
  {| scope_type := "http"; scope_path := "/"; scope_method := "POST";
     scope_headers := [("content-type", "application/json");
                       ("x-signature-timestamp", "1700000000")] |}.

(** An application whose signature check rejects everything, and which
    would answer 200 if it were ever handed an interaction. *)
Definition closed_app : App :=
  {| authenticate_request := λ _ _ _, false;
     aenter_succeeds := true;
     aexit_succeeds := true;
     json_loads := sample_loads;
     handle_interaction := λ _ _ _,
       ([ResponseStart 200 [("content-type", "application/json")]], Return) |}.

Definition post_signed : scope :=
  {| scope_type := "http"; scope_path := "/"; scope_method := "POST";
     scope_headers := [("content-type", "application/json");
                       ("x-signature-ed25519", "c0ffee");
                       ("x-signature-timestamp", "1700000000")] |}.

(** A signed request whose signature header is the single byte 255. *)
Definition post_garbled : scope :=
  {| scope_type := "http"; scope_path := "/"; scope_method := "POST";
     scope_headers := [("x-signature-ed25519",
                        String (Ascii.ascii_of_nat 255) EmptyString);
                       ("x-signature-timestamp", "1700000000")] |}.


Definition put_request : scope :=
  {| scope_type := "http"; scope_path := "/"; scope_method := "PUT";
     scope_headers := [] |}.

Definition chunk (body : string) (more : bool) : received :=
  {| ev_type := "http.request"; ev_body := body; ev_more_body := more |}.

(** The event a server sends when the client has gone. *)
Definition disconnect : incoming :=
  {| in_type := "http.disconnect"; in_body := None; in_more_body := None |}.

(** The bodies of a run of request events, one after the other. *)
Definition join_bodies (events : list received) : string :=
  foldr (λ event rest, ev_body event +:+ rest) "" events.

End Asgi.

(** ** wumpy/interactions/commands/context.py *)
Module ContextMenu.

(** The Python objects this file inspects: a class (named), an instance of
    a named class, and the [MISSING] sentinel.  [inspect.Parameter.empty],
    the annotation of a parameter without one, is itself a class. *)
Inductive pyobject :=
  | ClassObject (name : string)
  | Instance (class_name : string)
  | MISSING.

Definition empty : pyobject := ClassObject "_empty".

(** The subclass relation between the named classes is fixed outside this
    file: a parameter. *)
Class Hierarchy := issubclass : string → string → bool.

(** [isinstance(obj, cls)], for a class [cls] that is not a metaclass: it
    holds of the instances of [cls] and of its subclasses, and of no class
    object. *)
Definition isinstance `{Hierarchy} (obj : pyobject) (cls : string) : bool :=
  match obj with
  | Instance c => issubclass c cls
  | ClassObject _ => false
  | MISSING => false
  end.

(** A [UserCommand] (a [ContextMenuCommand]): the callback, named, and the
    stored [argument]. *)
Record UserCommand := {
  callback : option string;
  argument : pyobject
}.

(** [for param in signature.parameters.values()] of [_set_callback], over
    the annotations of the parameters in order:
<<
    if isinstance(param.annotation, CommandInteraction):
        continue
    self.argument = param.annotation
    break
>> *)
Fixpoint first_argument `{Hierarchy} (annotations : list pyobject)
  (argument : pyobject) : pyobject :=
  match annotations with
  | [] => argument
  | annotation :: rest =>
      if isinstance annotation "CommandInteraction"
      then first_argument rest argument
      else annotation
  end.

(** [ContextMenuCommand._set_callback(function)], the function given by
    its name and the annotations of its parameters; the call of
    [super()._set_callback] stores the callback. *)
Definition _set_callback `{Hierarchy} (self : UserCommand)
  (function : string) (annotations : list pyobject) : UserCommand :=
  {| callback := Some function;
     argument := first_argument annotations (argument self) |}.

(** A [CommandInteraction]: the two attributes [resolve_value] reads, the
    resolved users named by a string. *)
Record CommandInteraction := {
  target_id : option Z;
  resolved_users : gmap Z string
}.

Inductive resolved :=
  | Value (target : option string)
  | CommandSetupError (message : string).

(** [not interaction.target_id]: [None] and [0] are false. *)
Definition no_target (interaction : CommandInteraction) : bool :=
  match target_id interaction with
  | None | Some 0 => true
  | Some _ => false
  end.

(** [UserCommand.resolve_value]:
<<
    if not interaction.target_id:
        raise CommandSetupError('User command did not receive target ID.')
    if isinstance(self.argument, InteractionUser):
        target = interaction.resolved.users.get(interaction.target_id)
    else:
        raise CommandSetupError(
            "User command's second argument incorrectly annotated")
    return target
>> *)
Definition resolve_value `{Hierarchy} (self : UserCommand)
  (interaction : CommandInteraction) : resolved :=
  match target_id interaction with
  | None | Some 0 =>
      CommandSetupError "User command did not receive target ID."
  | Some target_id =>
      if isinstance (argument self) "InteractionUser"
      then Value (resolved_users interaction !! target_id)
      else CommandSetupError
             "User command's second argument incorrectly annotated"
  end.

(** [async def info(interaction: CommandInteraction, user: InteractionUser)]
    registered as a user command, and an interaction on user 5 that
    carries the resolved user. *)
Definition info_annotations : list pyobject :=
  [ClassObject "CommandInteraction"; ClassObject "InteractionUser"].

Definition new_command : UserCommand :=
  {| callback := None; argument := MISSING |}.

Definition on_user_5 : CommandInteraction :=
  {| target_id := Some 5; resolved_users := <[5 := "user 5"]> ∅ |}.

(** What [ContextMenuCommand.handle_interaction] comes to: the call handed
    to [tg.start_soon], nothing, or the exception of [resolve_value]. *)
Inductive handled :=
  | Started (callback : string) (target : string)
  | NothingStarted
  | Raised (message : string).

(** [ContextMenuCommand.handle_interaction] on a [UserCommand]:
<<
    value = self.resolve_value(interaction)
    if value is None or self.callback is None:
        return
    tg.start_soon(partial(self.callback, interaction, value))
>> *)
Definition handle_interaction `{Hierarchy} (self : UserCommand)
  (interaction : CommandInteraction) : handled :=
  match resolve_value self interaction with
  | CommandSetupError message => Raised message
  | Value None => NothingStarted
  | Value (Some target) =>
      match callback self with
      | None => NothingStarted
      | Some callback => Started callback target
      end
  end.

Definition is_class (obj : pyobject) : bool :=
  match obj with
  | ClassObject _ => true
  | _ => false
  end.

End ContextMenu.

(** ** wumpy/bot/_extension.py *)
Module Ext.

(** Listener callbacks, the initializers they are grouped under, command
    objects, and the patterns and components of [_regex_components] are
    named by strings. *)
Abbreviation listeners := (gmap string (gmap string (list string))).
Abbreviation commands := (gmap string string).

(** [class Extension(CommandRegistrar, ComponentHandler, EventDispatcher)] *)
Record Extension := {
  _listeners : listeners;
  _commands : commands;
  _regex_components : list (string * string);
  _data : option json
}.

(** The target of [load] and [unload].  An attribute is [None] when the
    target is not an instance of the class that defines it
    ([EventDispatcher], [CommandRegistrar], [ComponentHandler]). *)
Record Target := {
  target_listeners : option listeners;
  target_commands : option commands;
  target_regex_components : option (list (string * string))
}.

Inductive exception :=
  | KeyError (key : string)
  | ValueError (item : string).

(** The loops below run over [dict.items()].  A [gmap] does not keep the
    insertion order of a [dict]; the steps of these loops for different
    keys touch different entries, and only the order in which failures are
    chained depends on it. *)

(** The inner loop of [load] over [events.items()]:
<<
    if initializer in container:
        container[initializer].extend(callbacks)
    else:
        container[initializer] = callbacks.copy()
>> *)
Definition load_events (events : gmap string (list string))
  (container : gmap string (list string)) : gmap string (list string) :=
  foldl (λ container '(initializer, callbacks),
           match container !! initializer with
           | Some registered => <[initializer := registered ++ callbacks]> container
           | None => <[initializer := callbacks]> container
           end)
        container (map_to_list events).

(** The outer loop of [load] over [self._listeners.items()]:
<<
    if name not in target._listeners:
        container = {}
        target._listeners[name] = container
    else:
        container = target._listeners[name]
    for initializer, callbacks in events.items(): ...
>> *)
Definition load_listeners (own target : listeners) : listeners :=
  foldl (λ target '(name, events),
           let container :=
             match target !! name with
             | Some container => container
             | None => ∅
             end in
           <[name := load_events events container]> target)
        target (map_to_list own).

(** [Extension.load(target, data)]: the extension and the target after
    the call (the value returned is the bound [self.unload]). *)
Definition load (self : Extension) (target : Target) (data : json)
  : Extension * Target :=
  ({| _listeners := _listeners self; _commands := _commands self;
      _regex_components := _regex_components self; _data := Some data |},
   {| target_listeners := load_listeners (_listeners self) <$> target_listeners target;
      target_commands := (λ c, _commands self ∪ c) <$> target_commands target;
      target_regex_components :=
        (λ r, r ++ _regex_components self) <$> target_regex_components target |}).

(** [list.remove(x)]: the list without the first item equal to [x], or
    [None] for the ValueError raised when there is none. *)
Fixpoint list_remove {A} `{EqDecision A} (x : A) (l : list A) : option (list A) :=
  match l with
  | [] => None
  | y :: l' =>
      if bool_decide (y = x) then Some l'
      else match list_remove x l' with
           | Some l'' => Some (y :: l'')
           | None => None
           end
  end.

(** [to_raise]: the failure to raise at the end, first, followed by its
    chain of causes; empty for [None]. *)
Definition record (err : exception) (to_raise : list exception) : list exception :=
  err :: to_raise.

(** [for callback in callbacks: registered.remove(callback)] *)
Definition remove_callbacks (callbacks : list string)
  (registered : list string) (to_raise : list exception)
  : list string * list exception :=
  foldl (λ '(registered, to_raise) callback,
           match list_remove callback registered with
           | Some registered => (registered, to_raise)
           | None => (registered, record (ValueError callback) to_raise)
           end)
        (registered, to_raise) callbacks.

(** The loop of [unload] over [events.items()]:
<<
    try: registered = container[initializer]
    except Exception as err: ...; continue
    for callback in callbacks: ...
    try:
        if not registered:
            del container[initializer]
    except Exception as err: ...
>>
    [registered] is the list held by [container], changed in place. *)
Definition unload_events (events : gmap string (list string))
  (container : gmap string (list string)) (to_raise : list exception)
  : gmap string (list string) * list exception :=
  foldl (λ '(container, to_raise) '(initializer, callbacks),
           match container !! initializer with
           | None => (container, record (KeyError initializer) to_raise)
           | Some registered =>
               let '(registered, to_raise) :=
                 remove_callbacks callbacks registered to_raise in
               (match registered with
                | [] => delete initializer container
                | _ => <[initializer := registered]> container
                end, to_raise)
           end)
        (container, to_raise) (map_to_list events).

(** The loop of [unload] over [self._listeners.items()]:
<<
    try: container = target._listeners[name]
    except Exception as err: ...; continue
    for initializer, callbacks in events.items(): ...
    try:
        if not container:
            del target._listeners[name]
    except Exception as err: ...
>>
    [container] is the dictionary held by the target, changed in place. *)
Definition unload_listeners (own target : listeners)
  (to_raise : list exception) : listeners * list exception :=
  foldl (λ '(target, to_raise) '(name, events),
           match target !! name with
           | None => (target, record (KeyError name) to_raise)
           | Some container =>
               let '(container, to_raise) :=
                 unload_events events container to_raise in
               (if bool_decide (container = ∅) then delete name target
                else <[name := container]> target, to_raise)
           end)
        (target, to_raise) (map_to_list own).

(** [for command in self._commands: del target._commands[command]], a
    KeyError being passed over. *)
Definition unload_commands (own target : commands) : commands :=
  foldl (λ target '(command, _), delete command target) target (map_to_list own).

(** [for element in self._regex_components:
       target._regex_components.remove(element)] *)
Definition unload_regex_components (own target : list (string * string))
  (to_raise : list exception) : list (string * string) * list exception :=
  foldl (λ '(target, to_raise) element,
           match list_remove element target with
           | Some target => (target, to_raise)
           | None => (target, record (ValueError element.1) to_raise)
           end)
        (target, to_raise) own.

(** [Extension.unload(target)]: the extension and the target after the
    call, and [to_raise] at its end: the call returns when that is empty and
    raises its head otherwise. *)
Definition unload (self : Extension) (target : Target)
  : Extension * Target * list exception :=
  let to_raise := [] in
  let '(ls, to_raise) :=
    match target_listeners target with
    | Some ls =>
        let '(ls, to_raise) := unload_listeners (_listeners self) ls to_raise in
        (Some ls, to_raise)
    | None => (None, to_raise)
    end in
  let cs := unload_commands (_commands self) <$> target_commands target in
  let '(rs, to_raise) :=
    match target_regex_components target with
    | Some rs =>
        let '(rs, to_raise) :=
          unload_regex_components (_regex_components self) rs to_raise in
        (Some rs, to_raise)
    | None => (None, to_raise)
    end in
  ({| _listeners := _listeners self; _commands := _commands self;
      _regex_components := _regex_components self; _data := None |},
   {| target_listeners := ls; target_commands := cs;
      target_regex_components := rs |},
   to_raise).

(** An extension that has registered one listener [callback], under the
    event [name] and [initializer], and one command under [command_name]. *)
Definition one_listener_one_command (name initializer callback : string)
  (command_name command : string) : Extension :=
  {| _listeners := {[name := {[initializer := [callback]]}]};
     _commands := {[command_name := command]};
     _regex_components := [];
     _data := None |}.

(** The extension of the specification's round trip: a listener under
    "ready" and the command "ping"; and a target that has a listener of its
    own under "message" and a command "help". *)
Definition ready_ping : Extension :=
  one_listener_one_command "ready" "Ready" "on_ready" "ping" "ping command".

Definition busy_target : Target :=
  {| target_listeners := Some {["message" := {["Message" := ["log"]]}]};
     target_commands := Some {["help" := "help command"]};
     target_regex_components := Some [("^vote-", "vote")] |}.

(** A target that already listens to "ready", under the same initializer,
    with a callback of its own. *)
Definition listening_target : Target :=
  {| target_listeners :=
       Some {["ready" := {["Ready" := ["greet"]]}]};
     target_commands := Some {["help" := "help command"]};
     target_regex_components := Some [("^vote-", "vote")] |}.

(** Targets that hold none of the listeners and commands of [ready_ping]:
    one with an empty list of listeners under "ready" and "Ready", one with
    an empty dictionary under "ready", one with another command under the
    name "ping". *)
Definition idle_target : Target :=
  {| target_listeners := Some {["ready" := {["Ready" := []]}]};
     target_commands := Some ∅;
     target_regex_components := None |}.

Definition hollow_target : Target :=
  {| target_listeners := Some {["ready" := ∅]};
     target_commands := Some ∅;
     target_regex_components := None |}.

Definition pinging_target : Target :=
  {| target_listeners := Some ∅;
     target_commands := Some {["ping" := "other command"]};
     target_regex_components := None |}.

(** A target without listeners and commands. *)
Definition bare_target : Target :=
  {| target_listeners := Some ∅;
     target_commands := Some ∅;
     target_regex_components := None |}.

(** [str.startswith] *)
Fixpoint startswith (s prefix : string) : bool :=
  match prefix, s with
  | EmptyString, _ => true
  | String p prefix', String c s' => bool_decide (c = p) && startswith s' prefix'
  | String _ _, EmptyString => false
  end.

(** [_is_submodule(a, b)]: [a == b or a.startswith(b + '.')] *)
Definition _is_submodule (a b : string) : bool :=
  bool_decide (a = b) || startswith a (b +:+ ".").

End Ext.

(** ** wumpy/interactions/base.py: [ResolvedInteractionData] *)
Module Resolved.

(** [User] and [InteractionMember] (wumpy.models) are defined outside this
    file: their instances and their [from_data] are parameters. *)
Class ResolvedModels := {
  User : Type;
  User_from_data : json → User;
  InteractionMember : Type;
  InteractionMember_from_data : json → json → InteractionMember
}.

(** The truth value of a decoded JSON value. *)
Definition truthy (v : json) : bool :=
  match v with
  | JNull => false
  | JBool b => b
  | JInt z => negb (z =? 0)
  | JStr s => negb (bool_decide (s = ""))
  | JList items => negb (bool_decide (items = []))
  | JDict entries => negb (bool_decide (entries = []))
  end.

(** [d.get(k)] on the items of a dictionary, its keys being distinct. *)
Definition items_get (items : list (string * json)) (k : string) : json :=
  match list_find (λ kv, kv.1 = k) items with
  | Some (_, (_, v)) => v
  | None => JNull
  end.

Section Decode.
Context `{ResolvedModels}.

(** [{int(k): User.from_data(v) for k, v in users.items()}], the items in
    the order of the dictionary; [None] when an [int(k)] raises. *)
Fixpoint decode_users (users : list (string * json)) (out : gmap Z User)
  : option (gmap Z User) :=
  match users with
  | [] => Some out
  | (k, v) :: rest =>
      match Cache.py_int (Cache.PStr k) with
      | Some key => decode_users rest (<[key := User_from_data v]> out)
      | None => None
      end
  end.

(** [{int(k): InteractionMember.from_data(users.get(k), v)
      for k, v in members.items() if users.get(k)}] *)
Fixpoint decode_members (users members : list (string * json))
  (out : gmap Z InteractionMember) : option (gmap Z InteractionMember) :=
  match members with
  | [] => Some out
  | (k, v) :: rest =>
      if truthy (items_get users k) then
        match Cache.py_int (Cache.PStr k) with
        | Some key =>
            decode_members users rest
              (<[key := InteractionMember_from_data (items_get users k) v]> out)
        | None => None
        end
      else decode_members users rest out
  end.

(** The [users] and [members] of [ResolvedInteractionData.__init__], from
    the items of [data.get('users', {})] and [data.get('members', {})]. *)
Definition resolve (users members : list (string * json))
  : option (gmap Z User * gmap Z InteractionMember) :=
  match decode_users users ∅ with
  | None => None
  | Some us =>
      match decode_members users members ∅ with
      | None => None
      | Some ms => Some (us, ms)
      end
  end.

End Decode.

(** Models that keep the payloads as they are, for concrete runs. *)
Definition raw_models : ResolvedModels :=
  {| User := json; User_from_data := λ v, v;
     InteractionMember := json * json;
     InteractionMember_from_data := λ u m, (u, m) |}.

End Resolved.

(** * Properties *)

Section SlashProps.
Import Models Slash.

Lemma inner_call_unfold name commands options :
  _inner_call (SubcommandGroup name commands) options =
  match filter (λ o, is_subcommand_type o = true) options with
  | [] => ValueError
  | found0 :: _ =>
      match commands_get commands (opt_value found0) with
      | None => LookupError
      | Some sub => _inner_call sub (opt_options found0)
      end
  end.
Proof.
  simpl. destruct (filter _ options) as [|found0 ?]; [done|].
  destruct (opt_value found0) as [[key| | |]|]; simpl; try done.
  rewrite lookup_fmap. by destruct (commands !! key).
Qed.

(** X1: a group invoked with options none of which is of a subcommand
    type raises ValueError, whatever is registered on it. *)
Lemma inner_call_no_subcommand name commands options :
  Forall (λ o, is_subcommand_type o = false) options →
  _inner_call (SubcommandGroup name commands) options = ValueError.
Proof.
  intros Hall. simpl.
  replace (filter _ options) with (@nil CommandInteractionOption); [done|].
  symmetry. induction Hall as [|o os Ho _ IH]; [done|].
  rewrite filter_cons_False; [exact IH|]. rewrite Ho. discriminate.
Qed.

(** As the platform sends a subcommand option, without [value], the lookup
    key is [None] and no registered name is ever found. *)
Lemma inner_call_valueless name commands o os :
  is_subcommand_type o = true → opt_value o = None →
  _inner_call (SubcommandGroup name commands) (o :: os) = LookupError.
Proof.
  intros Hty Hval. simpl. rewrite filter_cons_True by done. simpl.
  by rewrite Hval.
Qed.

(** C1: a group holding "add" and "remove", invoked with the subcommand
    option named "remove" that carries nested options and no value, raises
    LookupError, where a lookup by the option's name reaches "remove". *)
Theorem C1_group_lookup_ignores_name :
  _inner_call math_group [remove_option] = LookupError ∧
  spec_inner_call math_group [remove_option]
    = Called "remove" [MkOption "item" string_ (Some (SStr "x")) []].
Proof. split; vm_compute; reflexivity. Qed.

End SlashProps.

Section ModelsProps.
Import Models.

(** C10: for the select option {label, value, emoji, default: true} the
    constructor leaves the flag in the [emoji] slot and never assigns the
    [default] slot; the payload's emoji is lost. *)
Theorem C10_select_value_emoji_overwritten :
  SelectInteractionValue_init red_option =
    inr {| label := Some (JStr "Red"); value := Some (JStr "red");
           description := Some JNull; emoji := Some (JBool true);
           default := None |}.
Proof. vm_compute. reflexivity. Qed.

(** C6: with only [content] given, the body sent is
    {"type": 4, "data": {"content": content}}; with [ephemeral=True] as
    well, [data] has the further key "flags" with value 64. *)
Theorem C6_respond_drops_unset_fields `{ResponseModels} (content : string) :
  respond (Given content) MISSING MISSING MISSING MISSING MISSING =
    ([ResponseStart 200 [("content-type", "application/json")];
      ResponseBody (JsonDump (JDict
        [("type", JInt 4); ("data", JDict [("content", JStr content)])]))],
     None) ∧
  respond (Given content) MISSING MISSING MISSING (Given true) MISSING =
    ([ResponseStart 200 [("content-type", "application/json")];
      ResponseBody (JsonDump (JDict
        [("type", JInt 4);
         ("data", JDict [("content", JStr content); ("flags", JInt 64)])]))],
     None).
Proof. split; reflexivity. Qed.

End ModelsProps.

Section ComponentsProps.
Import Models Components.

(** The loop always reaches the end of the list within [length] rounds. *)
Lemma waiters_loop_terminates fuel index i st :
  (length (_waiters st) ≤ index + fuel)%nat →
  is_Some (waiters_loop fuel index i st).
Proof.
  revert index st. induction fuel as [|fuel IH]; intros index st Hlen; simpl.
  - rewrite lookup_ge_None_2 by lia. by eexists.
  - destruct (_waiters st !! index) as [[check result]|] eqn:Hw; [|by eexists].
    apply IH. destruct (check i); simpl; [|lia].
    rewrite length_delete by (by eexists). apply lookup_lt_Some in Hw. lia.
Qed.

Lemma handle_interaction_terminates st i : is_Some (handle_interaction st i).
Proof.
  unfold handle_interaction. apply waiters_loop_terminates.
  destruct (_callback st); simpl; lia.
Qed.

(** C2: with two pending waiters that both accept the interaction, the
    first is resolved and removed and the loop ends: the second stays
    pending and unresolved. *)
Theorem C2_second_accepting_waiter_skipped :
  ∃ st, handle_interaction two_waiters (click "ok") = Some st ∧
        results st !! 0%nat = Some (click "ok") ∧
        results st !! 1%nat = None ∧
        _waiters st = [(accept_all, 1%nat)].
Proof. eexists. split; [vm_compute; reflexivity|]. by vm_compute. Qed.

(** A waiter behind waiters that all reject the interaction is reached,
    resolved and removed. *)
Lemma waiters_loop_reaches pre : ∀ pre0 st fuel i check event,
  _waiters st = pre0 ++ pre ++ [(check, event)] →
  Forall (λ w, w.1 i = false) pre →
  check i = true →
  (length pre < fuel)%nat →
  waiters_loop fuel (length pre0) i st =
    Some (resolve st (length pre0 + length pre) event i).
Proof.
  induction pre as [|[c r] pre IH]; intros pre0 st fuel i check event Hw Hrej Hacc Hfuel.
  - destruct fuel as [|fuel]; [simpl in Hfuel; lia|]. simpl in *.
    rewrite Hw, list_lookup_middle by done. rewrite Hacc.
    rewrite Nat.add_0_r.
    destruct fuel; simpl; rewrite Hw, delete_middle, app_nil_r;
      by rewrite lookup_ge_None_2 by lia.
  - destruct fuel as [|fuel]; [simpl in Hfuel; lia|].
    inversion Hrej as [|? ? Hc Hrej']; subst. simpl in Hc, Hfuel, Hw.
    cbn [waiters_loop]. rewrite Hw, list_lookup_middle by done. rewrite Hc.
    replace (S (length pre0)) with (length (pre0 ++ [(c, r)]))
      by (rewrite length_app; simpl; lia).
    rewrite (IH (pre0 ++ [(c, r)]) st fuel i check event); try done; [|by rewrite <- app_assoc|lia].
    do 2 f_equal. rewrite length_app. simpl. lia.
Qed.

Lemma filter_delete_rejected {A} (P : A → Prop) `{∀ x, Decision (P x)}
  (l : list A) : ∀ k x,
  l !! k = Some x → ¬ P x → filter P (delete k l) = filter P l.
Proof.
  induction l as [|y l IH]; intros k x Hk Hx; [done|].
  destruct k as [|k]; simpl in *.
  - simplify_eq. by rewrite filter_cons_False.
  - rewrite !filter_cons. by rewrite (IH k x).
Qed.

Lemma elem_of_list_delete {A} (l : list A) : ∀ k x, x ∈ delete k l → x ∈ l.
Proof.
  induction l as [|y l IH]; intros k x Hin; [done|].
  destruct k as [|k]; simpl in *; [by right|].
  apply elem_of_cons in Hin as [->|Hin]; [by left|]. right. by eapply IH.
Qed.

Lemma waiters_loop_keeps_rejecting i fuel : ∀ index st st',
  waiters_loop fuel index i st = Some st' →
  filter (λ w, w.1 i = false) (_waiters st')
    = filter (λ w, w.1 i = false) (_waiters st).
Proof.
  induction fuel as [|fuel IH]; intros index st st' Hloop; simpl in Hloop;
    destruct (_waiters st !! index) as [[check result]|] eqn:Hw;
    try by simplify_eq.
  destruct (check i) eqn:Hacc.
  - rewrite (IH _ _ _ Hloop). simpl.
    apply (filter_delete_rejected _ _ _ _ Hw). simpl. congruence.
  - by apply (IH _ _ _ Hloop).
Qed.

Lemma waiters_loop_results i fuel : ∀ index st st',
  waiters_loop fuel index i st = Some st' →
  ∀ event,
    results st' !! event = results st !! event ∨
    (results st' !! event = Some i ∧
     ∃ check, (check, event) ∈ _waiters st ∧ check i = true).
Proof.
  induction fuel as [|fuel IH]; intros index st st' Hloop event; simpl in Hloop;
    destruct (_waiters st !! index) as [[check result]|] eqn:Hw;
    try (simplify_eq; by left).
  destruct (check i) eqn:Hacc.
  - destruct (IH _ _ _ Hloop event) as [Heq|(Hset & c & Hin & Hc)].
    + simpl in Heq. destruct (decide (result = event)) as [->|Hne].
      * right. rewrite Heq, lookup_insert_eq. split; [done|].
        exists check. split; [|done]. by eapply list_elem_of_lookup_2.
      * left. by rewrite Heq, lookup_insert_ne.
    + right. split; [done|]. exists c. split; [|done].
      simpl in Hin. by eapply elem_of_list_delete.
  - by apply (IH _ _ _ Hloop).
Qed.

(** Waiters before the position of the iterator that all reject the
    interaction are passed one by one. *)
Lemma waiters_loop_skips i pre : ∀ pre0 rest st fuel,
  _waiters st = pre0 ++ pre ++ rest →
  Forall (λ w, w.1 i = false) pre →
  waiters_loop (length pre + fuel) (length pre0) i st
    = waiters_loop fuel (length pre0 + length pre) i st.
Proof.
  induction pre as [|[c r] pre IH]; intros pre0 rest st fuel Hw Hrej.
  - simpl. by rewrite Nat.add_0_r.
  - inversion Hrej as [|? ? Hc Hrej']; subst. simpl in Hc, Hw.
    cbn [length Nat.add waiters_loop].
    rewrite Hw, list_lookup_middle by done. rewrite Hc.
    replace (S (length pre0)) with (length (pre0 ++ [(c, r)]))
      by (rewrite length_app; simpl; lia).
    rewrite (IH (pre0 ++ [(c, r)]) rest st fuel);
      [|by rewrite <- app_assoc|done].
    f_equal. rewrite length_app. simpl. lia.
Qed.

(** The first pending waiter that accepts the interaction is resolved
    with it. *)
Lemma first_accepting_resolved st i pre check event rest :
  _waiters st = pre ++ (check, event) :: rest →
  Forall (λ w, w.1 i = false) pre →
  check i = true →
  ∃ st', handle_interaction st i = Some st' ∧ results st' !! event = Some i.
Proof.
  intros Hw Hrej Hacc.
  destruct (handle_interaction_terminates st i) as [st' Hst']. exists st'.
  split; [done|]. unfold handle_interaction in Hst'.
  set (st0 := match _callback st with
              | Some callback =>
                  {| _callback := _callback st; _waiters := _waiters st;
                     results := results st; created := created st;
                     started := started st ++ [(callback, i)] |}
              | None => st
              end) in *.
  assert (Hw0 : _waiters st0 = [] ++ pre ++ (check, event) :: rest).
  { unfold st0. by destruct (_callback st). }
  replace (length (_waiters st0)) with (length pre + S (length rest))%nat in Hst'
    by (rewrite Hw0, !length_app; simpl; lia).
  rewrite (waiters_loop_skips i pre [] _ st0 _ Hw0 Hrej) in Hst'.
  cbn [length Nat.add waiters_loop] in Hst'.
  rewrite Hw0 in Hst' at 1. simpl in Hst'.
  rewrite list_lookup_middle in Hst' by done. rewrite Hacc in Hst'.
  destruct (waiters_loop_results _ _ _ _ _ Hst' event) as [->|[-> _]]; [|done].
  simpl. apply lookup_insert_eq.
Qed.

Lemma waiters_loop_created i fuel : ∀ index st st',
  waiters_loop fuel index i st = Some st' → created st' = created st.
Proof.
  induction fuel as [|fuel IH]; intros index st st' Hloop; simpl in Hloop;
    destruct (_waiters st !! index) as [[check result]|] eqn:Hw;
    try by simplify_eq.
  rewrite (IH _ _ _ Hloop). by destruct (check i).
Qed.

Lemma waiters_loop_subset i fuel : ∀ index st st',
  waiters_loop fuel index i st = Some st' →
  ∀ w, w ∈ _waiters st' → w ∈ _waiters st.
Proof.
  induction fuel as [|fuel IH]; intros index st st' Hloop w Hin;
    simpl in Hloop;
    destruct (_waiters st !! index) as [[check result]|] eqn:Hw;
    try by simplify_eq.
  apply (IH _ _ _ Hloop) in Hin.
  destruct (check i); [|done]. simpl in Hin. by eapply elem_of_list_delete.
Qed.

(** What a call of [handle_interaction] that returns leaves of the waiters
    and the results. *)
Lemma handle_interaction_leaves st i st' :
  handle_interaction st i = Some st' →
  created st' = created st ∧
  (∀ w, w ∈ _waiters st' → w ∈ _waiters st) ∧
  (∀ w, w.1 i = false → w ∈ _waiters st → w ∈ _waiters st') ∧
  (∀ event,
     results st' !! event = results st !! event ∨
     ∃ check, (check, event) ∈ _waiters st ∧ check i = true).
Proof.
  unfold handle_interaction. intros Hloop.
  set (st0 := match _callback st with
              | Some callback =>
                  {| _callback := _callback st; _waiters := _waiters st;
                     results := results st; created := created st;
                     started := started st ++ [(callback, i)] |}
              | None => st
              end) in *.
  assert (Hc : created st0 = created st) by (unfold st0; by destruct (_callback st)).
  assert (Hw : _waiters st0 = _waiters st) by (unfold st0; by destruct (_callback st)).
  assert (Hr : results st0 = results st) by (unfold st0; by destruct (_callback st)).
  rewrite <- Hc, <- Hw, <- Hr. repeat split.
  - by eapply waiters_loop_created.
  - by eapply waiters_loop_subset.
  - intros w Hrej Hin.
    assert (Hf : w ∈ filter (λ w, w.1 i = false) (_waiters st0))
      by (by apply list_elem_of_filter).
    rewrite <- (waiters_loop_keeps_rejecting _ _ _ _ _ Hloop) in Hf.
    by apply list_elem_of_filter in Hf as [_ Hf].
  - intros event.
    destruct (waiters_loop_results _ _ _ _ _ Hloop event) as [Heq|[_ Hset]];
      [by left|by right].
Qed.

Lemma step_numbered st a st' :
  step st a = Some st' → numbered st → numbered st'.
Proof.
  intros Hstep [Hres Hwait]. destruct a as [check|i|event w|callback override];
    simpl in Hstep.
  - simplify_eq. split; simpl.
    + intros event Hsome. apply Hres in Hsome. lia.
    + intros w [Hin| ->%list_elem_of_singleton]%elem_of_app; simpl; [|lia].
      apply Hwait in Hin. lia.
  - destruct (handle_interaction_leaves _ _ _ Hstep) as (Hc & Hsub & _ & Hset).
    split; rewrite Hc.
    + intros event Hsome. destruct (Hset event) as [Heq|(check & Hin & _)].
      * apply Hres. by rewrite <- Heq.
      * by apply (Hwait (check, event)).
    + intros w Hin. by apply Hwait, Hsub.
  - destruct w; by simplify_eq.
  - unfold set_callback in Hstep.
    destruct (_callback st), override; by simplify_eq.
Qed.

(** Every [Result] of a component that was created empty and then used is
    numbered below [created]. *)
Lemma run_numbered activities : ∀ st st',
  run activities st = Some st' → numbered st → numbered st'.
Proof.
  induction activities as [|a rest IH]; intros st st' Hrun Hn; simpl in Hrun.
  - by simplify_eq.
  - destruct (step st a) as [st1|] eqn:Hstep; [|done].
    eapply IH; [done|]. by eapply step_numbered.
Qed.

Lemma Component_numbered callback : numbered (Component callback).
Proof.
  split; simpl.
  - intros event [v Hv]. by rewrite lookup_empty in Hv.
  - intros w Hin. by apply elem_of_nil in Hin.
Qed.

Lemma run_terminates activities : ∀ st, is_Some (run activities st).
Proof.
  induction activities as [|a rest IH]; intros st; simpl; [by eexists|].
  destruct a as [check|i|event w|callback override]; simpl; try apply IH.
  destruct (handle_interaction_terminates st i) as [st' ->]. apply IH.
Qed.

(** A waiter that is pending and unset stays so through everything that
    hands it no interaction it accepts. *)
Lemma run_keeps_waiter check event activities : ∀ st st',
  run activities st = Some st' →
  (∀ i, Deliver i ∈ activities → check i = false) →
  (event < created st)%nat →
  numbered st →
  (check, event) ∈ _waiters st →
  results st !! event = None →
  (∀ c, (c, event) ∈ _waiters st → c = check) →
  (check, event) ∈ _waiters st' ∧ results st' !! event = None.
Proof.
  induction activities as [|a rest IH];
    intros st st' Hrun Hrej Hlt Hn Hin Hnone Huniq; simpl in Hrun.
  - by simplify_eq.
  - destruct (step st a) as [st1|] eqn:Hstep; [|done].
    assert (Hn1 : numbered st1) by (by eapply step_numbered).
    assert (Hrest : ∀ i, Deliver i ∈ rest → check i = false).
    { intros i Hi. apply Hrej. by right. }
    apply (IH st1 st' Hrun Hrest); clear IH Hrun; try done;
      destruct a as [c'|i|e w|callback override]; simpl in Hstep.
    + simplify_eq. simpl. lia.
    + destruct (handle_interaction_leaves _ _ _ Hstep) as (-> & _). done.
    + destruct w; by simplify_eq.
    + unfold set_callback in Hstep.
      destruct (_callback st), override; by simplify_eq.
    + simplify_eq. simpl. apply elem_of_app. by left.
    + destruct (handle_interaction_leaves _ _ _ Hstep) as (_ & _ & Hkeep & _).
      apply Hkeep; [|done]. simpl. apply Hrej. by left.
    + destruct w; by simplify_eq.
    + unfold set_callback in Hstep.
      destruct (_callback st), override; by simplify_eq.
    + by simplify_eq.
    + destruct (handle_interaction_leaves _ _ _ Hstep) as (_ & _ & _ & Hset).
      destruct (Hset event) as [->|(c & Hc & Hacc)]; [done|].
      apply Huniq in Hc as ->. rewrite Hrej in Hacc by (by left). done.
    + destruct w; by simplify_eq.
    + unfold set_callback in Hstep.
      destruct (_callback st), override; by simplify_eq.
    + simplify_eq. simpl.
      intros c [Hc|Hc%list_elem_of_singleton]%elem_of_app; [by apply Huniq|].
      simplify_eq. lia.
    + destruct (handle_interaction_leaves _ _ _ Hstep) as (_ & Hsub & _).
      intros c Hc. by apply Huniq, Hsub.
    + destruct w; by simplify_eq.
    + unfold set_callback in Hstep.
      destruct (_callback st), override; by simplify_eq.
Qed.

(** C3 (as amended): take a component in any state it can be in, a wait
    registered on it, and anything that happens to the component before
    the deadline of that wait, no interaction delivered being one the
    wait accepts.  The wait ends in TimeoutError, which changes nothing:
    its waiter is still pending, its result unset, and a later
    interaction that the waiter accepts, and every waiter before it in the
    list rejects, sets the abandoned result. *)
Theorem C3_timed_out_waiter_stays_pending callback before st check between :
  run before (Component callback) = Some st →
  (∀ i, Deliver i ∈ between → check i = false) →
  ∃ st',
    run between (call_register st check).1 = Some st' ∧
    call_resume st' (call_register st check).2 DeadlinePassed
      = (st', TimeoutError) ∧
    (check, (call_register st check).2) ∈ _waiters st' ∧
    results st' !! (call_register st check).2 = None ∧
    ∀ i pre rest,
      _waiters st' = pre ++ (check, (call_register st check).2) :: rest →
      Forall (λ w, w.1 i = false) pre →
      check i = true →
      ∃ st'', handle_interaction st' i = Some st'' ∧
              results st'' !! (call_register st check).2 = Some i.
Proof.
  intros Hbefore Hrej.
  assert (Hn : numbered st).
  { eapply run_numbered; [done|]. apply Component_numbered. }
  destruct (run_terminates between (call_register st check).1) as [st' Hrun].
  exists st'. split; [done|]. split; [done|].
  destruct Hn as [Hres Hwait].
  assert (Hnone : results st !! created st = None).
  { destruct (results st !! created st) eqn:Hr; [|done].
    assert (created st < created st)%nat by (apply Hres; by eexists). lia. }
  destruct (run_keeps_waiter check (created st) between _ _ Hrun Hrej)
    as [Hin Hunset]; simpl.
  - lia.
  - eapply (step_numbered st (Wait check)); [done|by split].
  - apply elem_of_app. right. by apply list_elem_of_singleton.
  - done.
  - intros c [Hc|Hc%list_elem_of_singleton]%elem_of_app; [|by simplify_eq].
    apply Hwait in Hc. simpl in Hc. lia.
  - split; [done|]. split; [done|].
    intros i pre rest Hw Hpre Hacc.
    by apply (first_accepting_resolved st' i pre check (created st) rest).
Qed.

Lemma C3_timed_out_waiter_stays_pending_witness :
  ∃ st' st'',
    run [Wait (with_id "other"); Deliver (click "other");
         SetCallback "on_click" false]
      (call_register two_pending (with_id "mine")).1 = Some st' ∧
    call_resume st' 2%nat DeadlinePassed = (st', TimeoutError) ∧
    _waiters st' = [(with_id "first", 0%nat); (with_id "second", 1%nat);
                    (with_id "mine", 2%nat)] ∧
    results st' !! 2%nat = None ∧
    handle_interaction st' (click "mine") = Some st'' ∧
    results st'' !! 2%nat = Some (click "mine").
Proof.
  destruct (C3_timed_out_waiter_stays_pending None two_waits two_pending
              (with_id "mine")
              [Wait (with_id "other"); Deliver (click "other");
               SetCallback "on_click" false])
    as (st' & Hrun & Hend & Hin & Hunset & Hlater).
  - reflexivity.
  - intros i Hi. apply elem_of_cons in Hi as [Hi|Hi]; [discriminate|].
    apply elem_of_cons in Hi as [Hi|Hi].
    + injection Hi as ->. reflexivity.
    + apply elem_of_cons in Hi as [Hi|Hi]; [discriminate|].
      by apply elem_of_nil in Hi.
  - assert (Hst' : _waiters st'
                   = [(with_id "first", 0%nat); (with_id "second", 1%nat);
                      (with_id "mine", 2%nat)]).
    { vm_compute in Hrun. injection Hrun as <-. reflexivity. }
    destruct (Hlater (click "mine")
                [(with_id "first", 0%nat); (with_id "second", 1%nat)] [])
      as (st'' & Hh & Hr).
    + exact Hst'.
    + repeat constructor.
    + reflexivity.
    + exists st', st''. repeat split; assumption.
Defined.

(** C3, as stated, fails on a fresh component: after the deadline the
    waiter is still pending, and the next interaction resolves it. *)
Lemma C3_waiter_not_removed_on_timeout :
  let '(st, event, r) := wait_until_deadline (Component None) accept_all in
  r = TimeoutError ∧
  ¬ (∀ w, w ∈ _waiters st → w.2 ≠ event) ∧
  ∃ st', handle_interaction st (click "late") = Some st' ∧
         results st' !! event = Some (click "late").
Proof.
  simpl. split; [reflexivity|]. split.
  - intros H. apply (H (accept_all, 0%nat)); [|reflexivity].
    apply list_elem_of_singleton. reflexivity.
  - eexists. split; [vm_compute; reflexivity|]. by vm_compute.
Qed.

End ComponentsProps.

Section CacheProps.
Import Cache.
Context `{UserModel}.

Lemma py_eq_int_str z s : py_eq (PInt z) (PStr s) = false.
Proof. reflexivity. Qed.

(** What [_store_user] does when it does not return the cached object. *)
Lemma store_user_constructs c data key :
  py_int (ud_id data) = Some key →
  (∀ ref user, users_get c key = Some (ref, user) → up_to_date user data = false) →
  ∃ ref, (ref ∉ dom (objects c)) ∧
    _store_user c data =
      inr ({| objects := <[ref := User_from_data data]> (objects c);
              _users := <[key := ref]> (_users c);
              _members := _members c |}, ref).
Proof.
  intros Hkey Hstale. exists (fresh (dom (objects c))). split; [apply is_fresh|].
  unfold _store_user. rewrite Hkey.
  destruct (users_get c key) as [[ref user]|] eqn:Hget; [|done].
  by rewrite (Hstale ref user).
Qed.

(** When the cached user is up to date, it is returned and nothing changes. *)
Lemma store_user_reuses c data key ref user :
  py_int (ud_id data) = Some key →
  users_get c key = Some (ref, user) →
  up_to_date user data = true →
  _store_user c data = inr (c, ref).
Proof.
  intros Hkey Hget Hup. unfold _store_user. by rewrite Hkey, Hget, Hup.
Qed.

(** An id written as text never compares equal to the integer id of the
    cached user, so such a payload never finds its user up to date. *)
Lemma store_user_text_id_is_new c data s c' ref :
  ud_id data = PStr s →
  _store_user c data = inr (c', ref) →
  ref ∉ dom (objects c).
Proof.
  intros Hid Hst. destruct (py_int (ud_id data)) as [key|] eqn:Hkey.
  - destruct (store_user_constructs c data key Hkey) as (r & Hr & Heq).
    + intros ? user _. unfold up_to_date. by rewrite Hid.
    + rewrite Heq in Hst. by simplify_eq.
  - unfold _store_user in Hst. by rewrite Hkey in Hst.
Qed.

(** C4: the payload of user "42", with the id as text, is stored twice in a
    row in an empty cache: the second call finds the user of the first call
    under key 42 and yet constructs and returns another object. *)
Theorem C4_identical_payload_not_reused :
  ∃ c1 ref1 c2 ref2,
    _store_user empty_cache alice = inr (c1, ref1) ∧
    users_get c1 42 = Some (ref1, User_from_data alice) ∧
    _store_user c1 alice = inr (c2, ref2) ∧
    ref1 ≠ ref2.
Proof.
  destruct (store_user_constructs empty_cache alice 42) as (ref1 & _ & H1);
    [reflexivity|done|].
  set (c1 := {| objects := <[ref1 := User_from_data alice]> ∅;
                _users := <[42 := ref1]> ∅; _members := ∅ |}).
  assert (Hget : users_get c1 42 = Some (ref1, User_from_data alice)).
  { unfold users_get, c1. simpl. by rewrite !lookup_insert_eq. }
  destruct (store_user_constructs c1 alice 42) as (ref2 & Hfresh & H2);
    [reflexivity| |].
  { intros ref user _. reflexivity. }
  eexists c1, ref1, _, ref2. repeat split; [exact H1|exact Hget|exact H2|].
  intros ->. apply Hfresh. unfold c1. simpl. set_solver.
Qed.

(** With the guild id of the payload an integer, and [User.from_data]
    taking the user's id from the payload, the member is found again. *)
Lemma get_member_after_add_int_guild c data g key c' member :
  gm_guild_id data = Some (PInt g) →
  py_int (ud_id (gm_user data)) = Some key →
  u_id (User_from_data (gm_user data)) = key →
  _process_guild_member_add c data = inr (c', member) →
  get_member c' (PInt g) (ud_id (gm_user data)) = inr (Some member).
Proof.
  intros Hg Hkey Hid Hadd. unfold _process_guild_member_add in Hadd.
  rewrite Hg in Hadd.
  destruct (_store_user c (gm_user data)) as [e|[c1 ref]] eqn:Hst; [done|].
  destruct (objects c1 !! ref) as [user|] eqn:Hobj; [|done].
  assert (u_id user = key) as Huser.
  { unfold _store_user in Hst. rewrite Hkey in Hst.
    destruct (users_get c key) as [[r u]|] eqn:Hget.
    - destruct (up_to_date u (gm_user data)) eqn:Hup.
      + injection Hst as <- <-. unfold users_get in Hget.
        destruct (_users c !! key) as [r'|]; [|done].
        destruct (objects c !! r') eqn:Hr'; [|done]. injection Hget as -> ->.
        rewrite Hobj in Hr'. injection Hr' as ->.
        unfold up_to_date, py_eq in Hup.
        repeat (apply andb_prop in Hup as [Hup ?]).
        apply bool_decide_eq_true in Hup.
        rewrite <- Hup in Hkey. simpl in Hkey. congruence.
      + injection Hst as <- <-. simpl in Hobj.
        rewrite lookup_insert_eq in Hobj. congruence.
    - injection Hst as <- <-. simpl in Hobj.
      rewrite lookup_insert_eq in Hobj. congruence. }
  injection Hadd as <- <-. unfold get_member. simpl. rewrite Hkey, Huser.
  by rewrite lookup_insert_eq.
Qed.

(** C5: a member payload with guild id "7" and user id "42", both as text,
    is added to an empty cache.  The member is stored under a key whose
    first component is the text "7"; [get_member], which looks under
    integers, does not find it, called with integers or with the text. *)
Theorem C5_member_added_is_not_found :
  ∃ c member,
    _process_guild_member_add empty_cache alice_joins = inr (c, member) ∧
    _members c !! (PStr "7", m_id member) = Some member ∧
    get_member c (PInt 7) (PInt 42) = inr None ∧
    get_member c (PStr "7") (PStr "42") = inr None.
Proof.
  destruct (store_user_constructs empty_cache alice 42) as (ref & _ & Hst);
    [reflexivity|done|].
  unfold _process_guild_member_add. simpl. rewrite Hst. simpl.
  rewrite lookup_insert_eq. eexists _, _. split; [reflexivity|]. simpl.
  split; [apply lookup_insert_eq|].
  unfold get_member. simpl.
  split; (rewrite lookup_insert_ne by (intros [=]); by rewrite lookup_empty).
Qed.

End CacheProps.

Section AsgiProps.
Import Asgi.
Context `{App}.

(** A header that is never seen leaves its variable as it was. *)
Lemma scan_headers_signature headers : ∀ signature timestamp found,
  (∀ value, ("x-signature-ed25519", value) ∉ headers) →
  scan_headers headers signature timestamp = Some found →
  found.1 = signature.
Proof.
  induction headers as [|[header value] rest IH]; intros signature timestamp found Hno Hscan.
  - simpl in Hscan. by simplify_eq.
  - assert (Hrest : ∀ v, ("x-signature-ed25519", v) ∉ rest).
    { intros v Hin. apply (Hno v). by right. }
    simpl in Hscan.
    destruct (bool_decide (header = "content-type") &&
              bool_decide (value ≠ "application/json")); [done|].
    case_bool_decide; [by apply (IH _ _ _ Hrest Hscan)|].
    case_bool_decide as Hsig; [|by apply (IH _ _ _ Hrest Hscan)].
    subst. exfalso. apply (Hno value). by left.
Qed.

Lemma scan_headers_timestamp headers : ∀ signature timestamp found,
  (∀ value, ("x-signature-timestamp", value) ∉ headers) →
  scan_headers headers signature timestamp = Some found →
  found.2 = timestamp.
Proof.
  induction headers as [|[header value] rest IH]; intros signature timestamp found Hno Hscan.
  - simpl in Hscan. by simplify_eq.
  - assert (Hrest : ∀ v, ("x-signature-timestamp", v) ∉ rest).
    { intros v Hin. apply (Hno v). by right. }
    simpl in Hscan.
    destruct (bool_decide (header = "content-type") &&
              bool_decide (value ≠ "application/json")); [done|].
    case_bool_decide as Hts.
    { subst. exfalso. apply (Hno value). by left. }
    case_bool_decide; by apply (IH _ _ _ Hrest Hscan).
Qed.

Lemma authenticate_missing_header sc receive :
  (∀ value, ("x-signature-ed25519", value) ∉ scope_headers sc) ∨
  (∀ value, ("x-signature-timestamp", value) ∉ scope_headers sc) →
  _authenticate_request sc receive = Returned (false, None).
Proof.
  intros Hmiss. unfold _authenticate_request.
  destruct (scan_headers (scope_headers sc) None None)
    as [[signature timestamp]|] eqn:Hscan; [|done].
  destruct Hmiss as [Hno|Hno].
  - apply (scan_headers_signature _ _ _ _ Hno) in Hscan. simpl in Hscan.
    subst. by destruct timestamp.
  - apply (scan_headers_timestamp _ _ _ _ Hno) in Hscan. simpl in Hscan.
    subst. by destruct signature.
Qed.

(** A POST over http to the configured path is let through by
    [_verify_request_target], which sends nothing. *)
Lemma verify_request_target_passes (self : InteractionASGIApp) (sc : scope) :
  scope_type sc = "http" → scope_path sc = path self →
  scope_method sc = "POST" →
  _verify_request_target self sc = ([], false).
Proof.
  intros Hh Hp Hm. unfold _verify_request_target.
  rewrite (bool_decide_eq_false_2 (scope_type sc ≠ "http"))
    by (intros Hne; by apply Hne).
  rewrite (bool_decide_eq_false_2 (scope_path sc ≠ path self))
    by (intros Hne; by apply Hne).
  by rewrite (bool_decide_eq_false_2 (scope_method sc ≠ "POST"))
    by (intros Hne; by apply Hne).
Qed.

(** The strict decoder on a few byte strings: ASCII, a two-byte and a
    four-byte sequence are accepted; a lone continuation byte, an overlong
    form, a surrogate, a truncated sequence, a code point above U+10FFFF
    and the byte 255 are not. *)
Lemma utf8_valid_samples :
  let bytes := foldr (λ n, String (Ascii.ascii_of_nat n)) EmptyString in
  utf8_valid "c0ffee" = true ∧
  utf8_valid (bytes [195; 169]%nat) = true ∧
  utf8_valid (bytes [240; 159; 152; 128]%nat) = true ∧
  utf8_valid (bytes [128]%nat) = false ∧
  utf8_valid (bytes [192; 128]%nat) = false ∧
  utf8_valid (bytes [237; 160; 128]%nat) = false ∧
  utf8_valid (bytes [226; 130]%nat) = false ∧
  utf8_valid (bytes [244; 144; 128; 128]%nat) = false ∧
  utf8_valid (bytes [255]%nat) = false.
Proof. by vm_compute. Qed.

(** On events that all carry both keys the loop of the body is
    [read_body]. *)
Lemma receive_body_carrying (receive : list received) : ∀ body,
  receive_body (carrying <$> receive) body
  = match read_body receive body with
    | Some body => Returned body
    | None => Waiting
    end.
Proof.
  induction receive as [|request rest IH]; intros body; [done|].
  simpl. destruct (ev_more_body request); [apply IH|done].
Qed.

(** C8: an HTTP request to another path than the configured one is
    answered with status 404 whatever its method; an HTTP POST to the
    configured path without the x-signature-ed25519 header, or without the
    x-signature-timestamp header, is answered with status 401 and nothing
    else is sent, whatever request events the server holds (events
    lacking their keys included). *)
Theorem C8_gating_order (self : InteractionASGIApp) (sc : scope)
  (receive : list incoming) :
  scope_type sc = "http" →
  (scope_path sc ≠ path self →
     __call__ self sc receive
     = ([ResponseStart 404 [("content-type", "text/plain")];
         ResponseBody (Bytes "Not Found")], Return)) ∧
  (scope_path sc = path self →
   scope_method sc = "POST" →
   (∀ value, ("x-signature-ed25519", value) ∉ scope_headers sc) ∨
   (∀ value, ("x-signature-timestamp", value) ∉ scope_headers sc) →
     __call__ self sc receive
     = ([ResponseStart 401 [("content-type", "text/plain")];
         ResponseBody (Bytes "Unauthorized")], Return)).
Proof.
  intros Hhttp. unfold __call__. rewrite Hhttp.
  rewrite (bool_decide_eq_false_2 ("http" = "lifespan")) by done.
  split.
  - intros Hpath. unfold _verify_request_target. rewrite Hhttp.
    rewrite (bool_decide_eq_false_2 ("http" ≠ "http"))
      by (intros Hne; by apply Hne).
    by rewrite bool_decide_eq_true_2.
  - intros Hpath Hmethod Hmiss.
    rewrite (verify_request_target_passes self sc Hhttp Hpath Hmethod).
    by rewrite (authenticate_missing_header sc receive Hmiss).
Qed.

End AsgiProps.

Lemma C8_gating_order_witness :
  @Asgi.__call__ Asgi.open_app Asgi.endpoint Asgi.get_elsewhere []
    = ([ResponseStart 404 [("content-type", "text/plain")];
        ResponseBody (Bytes "Not Found")], Asgi.Return) ∧
  @Asgi.__call__ Asgi.open_app Asgi.endpoint Asgi.post_unsigned
     [Asgi.carrying (Asgi.chunk Asgi.ping_text false)]
    = ([ResponseStart 401 [("content-type", "text/plain")];
        ResponseBody (Bytes "Unauthorized")], Asgi.Return).
Proof.
  split.
  - apply (@C8_gating_order Asgi.open_app Asgi.endpoint Asgi.get_elsewhere []);
      [reflexivity|]. simpl. discriminate.
  - apply (@C8_gating_order Asgi.open_app Asgi.endpoint Asgi.post_unsigned
             [Asgi.carrying (Asgi.chunk Asgi.ping_text false)]);
      [reflexivity|reflexivity|reflexivity|].
    left. intros value Hin. simpl in Hin.
    repeat (apply elem_of_cons in Hin as [Hin|Hin]; [discriminate|]).
    by apply elem_of_nil in Hin.
Defined.

Section ContextProps.
Import ContextMenu.
Context `{Hierarchy}.

(** With a class as the stored argument the test [isinstance] fails, and a
    call that has a target ends in the setup error. *)
Lemma resolve_value_class_argument callback name interaction :
  resolve_value {| callback := callback; argument := ClassObject name |}
    interaction
  = CommandSetupError
      (if no_target interaction
       then "User command did not receive target ID."
       else "User command's second argument incorrectly annotated").
Proof.
  unfold resolve_value, no_target.
  by destruct (target_id interaction) as [[| |]|].
Qed.

(** C9: for a callback annotated (CommandInteraction, InteractionUser),
    [_set_callback] stores the annotation of the first parameter, and the
    call on an interaction whose target 5 is among the resolved users
    raises the setup error; it does so too with the class InteractionUser
    itself as the stored argument. *)
Theorem C9_user_annotation_rejected :
  argument (_set_callback new_command "info" info_annotations)
    = ClassObject "CommandInteraction" ∧
  resolve_value (_set_callback new_command "info" info_annotations) on_user_5
    = CommandSetupError "User command's second argument incorrectly annotated" ∧
  resolve_value {| callback := Some "info";
                   argument := ClassObject "InteractionUser" |} on_user_5
    = CommandSetupError "User command's second argument incorrectly annotated".
Proof. repeat split; reflexivity. Qed.

End ContextProps.

Section ExtProps.
Import Ext.

Lemma list_remove_last {A} `{EqDecision A} (x : A) (l : list A) :
  x ∉ l → list_remove x (l ++ [x]) = Some l.
Proof.
  induction l as [|y l IH]; intros Hnot; simpl.
  - by rewrite bool_decide_eq_true_2.
  - rewrite bool_decide_eq_false_2 by (intros ->; apply Hnot; by left).
    rewrite IH; [done|]. intros Hin. apply Hnot. by right.
Qed.

(** What [load] leaves in the listener mapping for a single listener. *)
Lemma load_listeners_one name initializer callback (target : listeners) :
  load_listeners {[name := {[initializer := [callback]]}]} target =
  <[name :=
      match target !! name with
      | None => {[initializer := [callback]]}
      | Some container =>
          match container !! initializer with
          | Some registered => <[initializer := registered ++ [callback]]> container
          | None => <[initializer := [callback]]> container
          end
      end]> target.
Proof.
  unfold load_listeners, load_events. rewrite map_to_list_singleton. simpl.
  rewrite map_to_list_singleton. simpl.
  destruct (target !! name) as [container|]; [done|].
  by rewrite lookup_empty, insert_empty.
Qed.

(** The general round trip on the listener mapping: the target may hold
    listeners under the same event, and under the same initializer, as long
    as the callback is not among them and none of the containers the
    extension registers in is empty. *)
Lemma unload_load_listeners_one name initializer callback (target : listeners) :
  match target !! name with
  | None => True
  | Some container =>
      container ≠ ∅ ∧
      match container !! initializer with
      | None => True
      | Some registered => registered ≠ [] ∧ callback ∉ registered
      end
  end →
  unload_listeners {[name := {[initializer := [callback]]}]}
    (load_listeners {[name := {[initializer := [callback]]}]} target) []
  = (target, []).
Proof.
  intros Hfresh. rewrite load_listeners_one.
  unfold unload_listeners, unload_events, remove_callbacks.
  rewrite map_to_list_singleton. simpl. rewrite lookup_insert_eq.
  rewrite map_to_list_singleton. simpl.
  destruct (target !! name) as [container|] eqn:Hname.
  - destruct Hfresh as [Hne Hfresh].
    destruct (container !! initializer) as [registered|] eqn:Hinit.
    + destruct Hfresh as [Hreg Hnot]. rewrite lookup_insert_eq.
      rewrite list_remove_last by done.
      destruct registered as [|r registered]; [done|].
      rewrite insert_insert_eq, (insert_id container) by done.
      rewrite bool_decide_eq_false_2 by done.
      by rewrite insert_insert_eq, insert_id.
    + rewrite lookup_insert_eq. simpl. rewrite bool_decide_eq_true_2 by done.
      rewrite delete_insert_id by done.
      rewrite bool_decide_eq_false_2 by done.
      by rewrite insert_insert_eq, insert_id.
  - rewrite lookup_singleton_eq. simpl. rewrite bool_decide_eq_true_2 by done.
    rewrite delete_singleton_eq. rewrite bool_decide_eq_true_2 by done.
    by rewrite delete_insert_id.
Qed.

Lemma unload_load_commands_one command_name command (target : commands) :
  target !! command_name = None →
  unload_commands {[command_name := command]} ({[command_name := command]} ∪ target)
  = target.
Proof.
  intros Hfree. unfold unload_commands. rewrite map_to_list_singleton. simpl.
  by rewrite <- insert_union_singleton_l, delete_insert_id.
Qed.

(** C7 (as amended): an extension with one listener and one command is
    loaded onto a target and then unloaded.  The target has no command
    under the name of the extension's command; it may listen to the same
    event, and under the same initializer, with callbacks other than the
    extension's, but holds no empty dictionary under that event and no
    empty list under that initializer.  Then no failure is recorded and
    the target is what it was before the load. *)
Theorem C7_load_unload_round_trip
  (name initializer callback command_name command : string)
  (data : json) (ls : listeners) (cs : commands)
  (rs : option (list (string * string))) :
  match ls !! name with
  | None => True
  | Some container =>
      container ≠ ∅ ∧
      match container !! initializer with
      | None => True
      | Some registered => registered ≠ [] ∧ callback ∉ registered
      end
  end →
  cs !! command_name = None →
  let self := one_listener_one_command name initializer callback command_name command in
  let target := {| target_listeners := Some ls; target_commands := Some cs;
                   target_regex_components := rs |} in
  unload (load self target data).1 (load self target data).2 = (self, target, []).
Proof.
  intros Hls Hcs self target. unfold unload, load, self, target,
    one_listener_one_command.
  cbn [fst snd _listeners _commands _regex_components _data target_listeners
       target_commands target_regex_components fmap option_fmap option_map].
  rewrite unload_load_listeners_one by done.
  rewrite unload_load_commands_one by done.
  destruct rs as [rs|]; simpl; [|done]. by rewrite app_nil_r.
Qed.

Lemma C7_load_unload_round_trip_witness :
  unload (load ready_ping listening_target JNull).1
         (load ready_ping listening_target JNull).2
  = (ready_ping, listening_target, []).
Proof.
  apply (C7_load_unload_round_trip "ready" "Ready" "on_ready" "ping"
           "ping command" JNull
           {["ready" := {["Ready" := ["greet"]]}]}
           {["help" := "help command"]}
           (Some [("^vote-", "vote")])).
  - rewrite lookup_singleton_eq. split; [apply insert_non_empty|].
    rewrite lookup_singleton_eq. split; [discriminate|].
    intros Hin. apply list_elem_of_singleton in Hin. discriminate.
  - reflexivity.
Defined.

(** C7, as stated, fails on targets that hold neither the listener nor
    the command of the extension: an empty list under the initializer, or
    an empty dictionary under the event, is gone after the round trip, and
    another command under the same name is gone too.  In each run
    [unload] records no failure. *)
Lemma C7_round_trip_loses_entries :
  unload (load ready_ping idle_target JNull).1
         (load ready_ping idle_target JNull).2
  = (ready_ping, bare_target, []) ∧
  unload (load ready_ping hollow_target JNull).1
         (load ready_ping hollow_target JNull).2
  = (ready_ping, bare_target, []) ∧
  unload (load ready_ping pinging_target JNull).1
         (load ready_ping pinging_target JNull).2
  = (ready_ping, bare_target, []) ∧
  idle_target ≠ bare_target ∧
  hollow_target ≠ bare_target ∧
  pinging_target ≠ bare_target.
Proof.
  repeat split; by vm_compute.
Qed.

End ExtProps.

(** * Further properties of the code *)

Section SlashMore.
Import Models Slash.

Lemma inner_call_no_subcommand_witness :
  _inner_call math_group [MkOption "item" string_ (Some (SStr "x")) []] = ValueError.
Proof.
  apply (inner_call_no_subcommand "math" _ [MkOption "item" string_ (Some (SStr "x")) []]).
  repeat constructor.
Defined.

Lemma filter_skip_prefix {A} (P : A → Prop) `{∀ x, Decision (P x)} (pre rest : list A) :
  Forall (λ x, ¬ P x) pre → filter P (pre ++ rest) = filter P rest.
Proof.
  induction 1 as [|x pre Hx _ IH]; [done|]. simpl.
  by rewrite filter_cons_False.
Qed.

(** X2: Routing in a group goes by the [value] of the first option of a
    subcommand type: options before it of other types are skipped, every
    option after it is ignored, and the command registered under that value
    is invoked with the nested options of that option. *)
Theorem inner_call_routes_by_value name commands pre o rest key sub :
  Forall (λ o, is_subcommand_type o = false) pre →
  is_subcommand_type o = true →
  opt_value o = Some (SStr key) →
  commands !! key = Some sub →
  _inner_call (SubcommandGroup name commands) (pre ++ o :: rest)
    = _inner_call sub (opt_options o).
Proof.
  intros Hpre Hty Hval Hsub. rewrite inner_call_unfold.
  rewrite filter_skip_prefix
    by (eapply Forall_impl; [exact Hpre|]; intros ? ->; discriminate).
  rewrite filter_cons_True by done.
  by rewrite Hval; simpl; rewrite Hsub.
Qed.

Lemma inner_call_routes_by_value_witness :
  _inner_call math_group
    ([MkOption "verbose" boolean (Some (SBool true)) []] ++
     MkOption "whatever" subcommand (Some (SStr "remove"))
       [MkOption "item" string_ (Some (SStr "x")) []]
     :: [MkOption "add" subcommand (Some (SStr "add")) []])
  = _inner_call (Command "remove") [MkOption "item" string_ (Some (SStr "x")) []].
Proof.
  apply (inner_call_routes_by_value "math" _
           [MkOption "verbose" boolean (Some (SBool true)) []]
           (MkOption "whatever" subcommand (Some (SStr "remove"))
              [MkOption "item" string_ (Some (SStr "x")) []])
           [MkOption "add" subcommand (Some (SStr "add")) []]
           "remove" (Command "remove")).
  - repeat constructor.
  - reflexivity.
  - reflexivity.
  - reflexivity.
Defined.

(** X3: Registering a command under a free name and removing the same object
    again gives back the dictionary as it was. *)
Theorem add_remove_command_round_trip commands command name :
  registered_name command = Some name →
  commands !! name = None →
  ∃ commands',
    add_command commands command = inr commands' ∧
    commands' !! name = Some (address command) ∧
    remove_command commands' command = inr commands.
Proof.
  intros Hname Hfree. exists (<[name := address command]> commands).
  unfold add_command, remove_command. rewrite Hname, Hfree.
  rewrite lookup_insert_eq, bool_decide_eq_true_2 by done.
  by rewrite delete_insert_id.
Qed.

Lemma add_remove_command_round_trip_witness :
  ∃ commands',
    add_command {["add" := 1%nat]} {| address := 2; registered_name := Some "remove" |}
      = inr commands' ∧
    commands' !! "remove" = Some 2%nat ∧
    remove_command commands' {| address := 2; registered_name := Some "remove" |}
      = inr {["add" := 1%nat]}.
Proof.
  apply (add_remove_command_round_trip {["add" := 1%nat]}
           {| address := 2; registered_name := Some "remove" |} "remove").
  - reflexivity.
  - reflexivity.
Defined.

(** X4: [remove_command] takes out nothing but the very object passed: when
    another object is registered under the name of the command, or none,
    it raises and the dictionary stays as it is; when it returns, the entry
    removed held the object passed and every other entry is kept. *)
Theorem remove_command_only_the_registered commands command commands' :
  remove_command commands command = inr commands' →
  ∃ name, registered_name command = Some name ∧
          commands !! name = Some (address command) ∧
          commands' !! name = None ∧
          ∀ other, other ≠ name → commands' !! other = commands !! other.
Proof.
  unfold remove_command. intros Hrm.
  destruct (registered_name command) as [name|]; [|done].
  destruct (commands !! name) as [found|] eqn:Hfound; [|done].
  case_bool_decide as Hsame; [|done]. injection Hrm as <-. subst found.
  exists name. repeat split; [done|apply lookup_delete_eq|].
  intros other Hne. by apply lookup_delete_ne.
Qed.

Lemma remove_command_only_the_registered_witness :
  ∃ name, registered_name {| address := 2; registered_name := Some "remove" |} = Some name ∧
          ({["remove" := 2%nat]} : gmap string nat) !! name = Some 2%nat ∧
          (∅ : gmap string nat) !! name = None ∧
          ∀ other, other ≠ name →
            (∅ : gmap string nat) !! other = ({["remove" := 2%nat]} : gmap string nat) !! other.
Proof.
  apply (remove_command_only_the_registered {["remove" := 2%nat]}
           {| address := 2; registered_name := Some "remove" |} ∅).
  reflexivity.
Defined.

End SlashMore.

Section DefaultsProps.
Import Slash.

Lemma out_of_order_cons pos_default o rest :
  positional_with false o = false →
  out_of_order pos_default (o :: rest)
  ↔ out_of_order (pos_default || positional_with true o) rest.
Proof.
  intros Ho. split.
  - intros (before & o2 & after & Heq & Ho2 & Hprev).
    destruct before as [|b before]; simplify_eq/=; [congruence|].
    exists before, o2, after. repeat split; [done|].
    destruct Hprev as [->|(o' & Hin & Ho')]; [by left|].
    apply elem_of_cons in Hin as [->|Hin].
    + left. rewrite Ho'. by destruct pos_default.
    + right. by exists o'.
  - intros (before & o2 & after & -> & Ho2 & Hprev).
    exists (o :: before), o2, after. repeat split; [done|].
    destruct Hprev as [Hor|(o' & Hin & Ho')].
    + apply orb_prop in Hor as [->|Ho1]; [by left|].
      right. exists o. split; [by left|done].
    + right. exists o'. split; [by right|done].
Qed.

Lemma collect_defaults_spec options : ∀ defaults kw_defaults pos_default,
  Forall (λ o, updated o = true) options →
  match collect_defaults options defaults kw_defaults pos_default with
  | inl AssertionError => False
  | inl TypeError_default_order => out_of_order pos_default options
  | inr (defaults', _) =>
      ¬ out_of_order pos_default options ∧
      defaults' = defaults
        ++ (default_value <$> filter (λ o, positional_with true o = true) options)
  end.
Proof.
  induction options as [|o rest IH]; intros defaults kw_defaults pos_default Hup.
  - simpl. split; [|by rewrite app_nil_r].
    intros (before & ? & ? & Heq & _). by destruct before.
  - inversion Hup as [|? ? Ho Hrest]; subst. unfold updated in Ho.
    apply andb_prop in Ho as [Hk Hp].
    apply bool_decide_eq_true in Hk as [k Hk].
    apply bool_decide_eq_true in Hp as [p Hp].
    cbn [collect_defaults]. rewrite Hk, Hp.
    destruct (is_positional k) eqn:Hpos; destruct (has_default o) eqn:Hdef; simpl.
    + assert (positional_with false o = false) as Hno.
      { unfold positional_with. rewrite Hk, Hpos, Hdef. done. }
      assert (positional_with true o = true) as Hyes.
      { unfold positional_with. rewrite Hk, Hpos, Hdef. done. }
      specialize (IH (defaults ++ [default_value o]) kw_defaults true Hrest).
      destruct (collect_defaults rest _ _ true) as [[]|[defaults' ?]].
      * done.
      * apply out_of_order_cons; [done|]. rewrite Hyes. by rewrite orb_true_r.
      * destruct IH as [Hok ->]. split.
        -- rewrite out_of_order_cons by done. rewrite Hyes. by rewrite orb_true_r.
        -- rewrite filter_cons_True by done. simpl. by rewrite <- app_assoc.
    + assert (positional_with false o = true) as Hyes.
      { unfold positional_with. rewrite Hk, Hpos, Hdef. done. }
      assert (positional_with true o = false) as Hno.
      { unfold positional_with. rewrite Hk, Hpos, Hdef. done. }
      destruct pos_default; simpl.
      * exists [], o, rest. repeat split; [done|by left].
      * specialize (IH defaults kw_defaults false Hrest).
        assert (out_of_order false (o :: rest) ↔ out_of_order false rest) as Hiff.
        { split.
          - intros (before & o2 & after & Heq & Ho2 & Hprev).
            destruct before as [|b before]; simplify_eq/=.
            + destruct Hprev as [|(? & Hin & _)]; [done|]. by apply elem_of_nil in Hin.
            + exists before, o2, after. repeat split; [done|].
              destruct Hprev as [|(o' & Hin & Ho')]; [done|].
              apply elem_of_cons in Hin as [->|Hin]; [congruence|].
              right. by exists o'.
          - intros (before & o2 & after & -> & Ho2 & Hprev).
            exists (o :: before), o2, after. repeat split; [done|].
            destruct Hprev as [|(o' & Hin & Ho')]; [done|].
            right. exists o'. split; [by right|done]. }
        destruct (collect_defaults rest _ _ false) as [[]|[defaults' ?]].
        -- done.
        -- by apply Hiff.
        -- destruct IH as [Hok ->]. split; [by rewrite Hiff|].
           rewrite filter_cons_False; [done|]. rewrite Hno. discriminate.
    + assert (positional_with false o = false) as Hno.
      { unfold positional_with. by rewrite Hk, Hpos. }
      assert (positional_with true o = false) as Hno'.
      { unfold positional_with. by rewrite Hk, Hpos. }
      specialize (IH defaults (<[p := default_value o]> kw_defaults) pos_default Hrest).
      destruct (collect_defaults rest _ _ pos_default) as [[]|[defaults' ?]].
      * done.
      * apply out_of_order_cons; [done|]. by rewrite Hno', orb_false_r.
      * destruct IH as [Hok ->]. split.
        -- rewrite out_of_order_cons by done. by rewrite Hno', orb_false_r.
        -- rewrite filter_cons_False; [done|]. rewrite Hno'. discriminate.
    + assert (positional_with false o = false) as Hno.
      { unfold positional_with. by rewrite Hk, Hpos. }
      assert (positional_with true o = false) as Hno'.
      { unfold positional_with. by rewrite Hk, Hpos. }
      specialize (IH defaults kw_defaults pos_default Hrest).
      destruct (collect_defaults rest _ _ pos_default) as [[]|[defaults' ?]].
      * done.
      * apply out_of_order_cons; [done|]. by rewrite Hno', orb_false_r.
      * destruct IH as [Hok ->]. split.
        -- rewrite out_of_order_cons by done. by rewrite Hno', orb_false_r.
        -- rewrite filter_cons_False; [done|]. rewrite Hno'. discriminate.
Qed.

(** X5: On options that [update] has completed, [_process_return_type] raises
    the TypeError exactly when a positional option without a default
    stands somewhere after a positional option with a default; keyword-only
    options never count.  When it returns, [__defaults__] is made of the
    defaults of the positional options that have one, in registration
    order. *)
Theorem process_return_type_default_order options :
  Forall (λ o, updated o = true) options →
  match _process_return_type options with
  | inl AssertionError => False
  | inl TypeError_default_order =>
      ∃ before o after o',
        options = before ++ o :: after ∧ positional_with false o = true ∧
        o' ∈ before ∧ positional_with true o' = true
  | inr (defaults, _) =>
      (¬ ∃ before o after o',
          options = before ++ o :: after ∧ positional_with false o = true ∧
          o' ∈ before ∧ positional_with true o' = true) ∧
      defaults = default_value <$> filter (λ o, positional_with true o = true) options
  end.
Proof.
  intros Hup. unfold _process_return_type.
  pose proof (collect_defaults_spec options [] ∅ false Hup) as Hspec.
  destruct (collect_defaults options [] ∅ false) as [[]|[defaults ?]].
  - done.
  - destruct Hspec as (before & o & after & Heq & Ho & [|(o' & Hin & Ho')]); [done|].
    by exists before, o, after, o'.
  - destruct Hspec as [Hok ->]. split; [|done].
    intros (before & o & after & o' & Heq & Ho & Hin & Ho').
    apply Hok. exists before, o, after. repeat split; [done..|].
    right. by exists o'.
Qed.

Lemma process_return_type_default_order_witness :
  match _process_return_type
          [plain_option "count" POSITIONAL_OR_KEYWORD (Some (SInt 5));
           plain_option "flag" KEYWORD_ONLY None;
           plain_option "name" POSITIONAL_OR_KEYWORD None] with
  | inl AssertionError => False
  | inl TypeError_default_order =>
      ∃ before o after o',
        [plain_option "count" POSITIONAL_OR_KEYWORD (Some (SInt 5));
         plain_option "flag" KEYWORD_ONLY None;
         plain_option "name" POSITIONAL_OR_KEYWORD None]
          = before ++ o :: after ∧ positional_with false o = true ∧
        o' ∈ before ∧ positional_with true o' = true
  | inr (defaults, _) =>
      (¬ ∃ before o after o',
          [plain_option "count" POSITIONAL_OR_KEYWORD (Some (SInt 5));
           plain_option "flag" KEYWORD_ONLY None;
           plain_option "name" POSITIONAL_OR_KEYWORD None]
            = before ++ o :: after ∧ positional_with false o = true ∧
          o' ∈ before ∧ positional_with true o' = true) ∧
      defaults = default_value <$> filter (λ o, positional_with true o = true)
          [plain_option "count" POSITIONAL_OR_KEYWORD (Some (SInt 5));
           plain_option "flag" KEYWORD_ONLY None;
           plain_option "name" POSITIONAL_OR_KEYWORD None]
  end.
Proof.
  apply (process_return_type_default_order
           [plain_option "count" POSITIONAL_OR_KEYWORD (Some (SInt 5));
            plain_option "flag" KEYWORD_ONLY None;
            plain_option "name" POSITIONAL_OR_KEYWORD None]).
  repeat constructor.
Defined.

End DefaultsProps.

Section WaitersProps.
Import Models Components.

(** X6: The waiters whose predicate rejects the interaction are all still
    pending after [handle_interaction], in their order; the call always
    comes to an end. *)
Theorem handle_interaction_keeps_rejecting st i :
  ∃ st', handle_interaction st i = Some st' ∧
         filter (λ w, w.1 i = false) (_waiters st')
           = filter (λ w, w.1 i = false) (_waiters st).
Proof.
  destruct (handle_interaction_terminates st i) as [st' Hst']. exists st'.
  split; [done|]. unfold handle_interaction in Hst'.
  rewrite (waiters_loop_keeps_rejecting _ _ _ _ _ Hst').
  by destruct (_callback st).
Qed.

(** X7: [handle_interaction] sets no result but those of waiters that were
    pending and accept the interaction, and sets them to the interaction:
    every other result is as it was. *)
Theorem handle_interaction_sets_only_accepting st i :
  ∃ st', handle_interaction st i = Some st' ∧
    ∀ event,
      results st' !! event = results st !! event ∨
      (results st' !! event = Some i ∧
       ∃ check, (check, event) ∈ _waiters st ∧ check i = true).
Proof.
  destruct (handle_interaction_terminates st i) as [st' Hst']. exists st'.
  split; [done|]. intros event. unfold handle_interaction in Hst'.
  destruct (waiters_loop_results _ _ _ _ _ Hst' event) as [Heq|Hset].
  - left. rewrite Heq. by destruct (_callback st).
  - right. by destruct (_callback st).
Qed.

(** X8: The first pending waiter that accepts the interaction is always
    resolved with it, whatever stands behind it in the list. *)
Theorem handle_interaction_resolves_first_accepting st i pre check event rest :
  _waiters st = pre ++ (check, event) :: rest →
  Forall (λ w, w.1 i = false) pre →
  check i = true →
  ∃ st', handle_interaction st i = Some st' ∧ results st' !! event = Some i.
Proof.
  intros Hw Hrej Hacc.
  destruct (handle_interaction_terminates st i) as [st' Hst']. exists st'.
  split; [done|]. unfold handle_interaction in Hst'.
  set (st0 := match _callback st with
              | Some callback =>
                  {| _callback := _callback st; _waiters := _waiters st;
                     results := results st; created := created st;
                     started := started st ++ [(callback, i)] |}
              | None => st
              end) in *.
  assert (Hw0 : _waiters st0 = [] ++ pre ++ (check, event) :: rest).
  { unfold st0. by destruct (_callback st). }
  replace (length (_waiters st0)) with (length pre + S (length rest))%nat in Hst'
    by (rewrite Hw0, !length_app; simpl; lia).
  rewrite (waiters_loop_skips i pre [] _ st0 _ Hw0 Hrej) in Hst'.
  cbn [length Nat.add waiters_loop] in Hst'.
  rewrite Hw0 in Hst' at 1. simpl in Hst'.
  rewrite list_lookup_middle in Hst' by done. rewrite Hacc in Hst'.
  destruct (waiters_loop_results _ _ _ _ _ Hst' event) as [->|[-> _]]; [|done].
  simpl. apply lookup_insert_eq.
Qed.

Lemma handle_interaction_resolves_first_accepting_witness :
  ∃ st', handle_interaction two_waiters (click "ok") = Some st' ∧
         results st' !! 0%nat = Some (click "ok").
Proof.
  apply (handle_interaction_resolves_first_accepting two_waiters (click "ok")
           [] accept_all 0%nat [(accept_all, 1%nat)]).
  - reflexivity.
  - constructor.
  - reflexivity.
Defined.

End WaitersProps.

Section EmojiProps.
Import Components.
Import Stdlib.Strings.Ascii.
Context `{Epoch}.

Lemma span_all p a : ∀ b,
  all_chars p a = true →
  match b with String c _ => p c = false | EmptyString => True end →
  span p (a +:+ b) = (a, b).
Proof.
  induction a as [|c a IH]; intros b Ha Hb; simpl in *.
  - destruct b as [|c b]; [done|]. simpl. by rewrite Hb.
  - apply andb_prop in Ha as [Hc Ha]. by rewrite Hc, (IH b).
Qed.

Lemma span_append p s : (span p s).1 +:+ (span p s).2 = s.
Proof.
  induction s as [|c s IH]; simpl; [done|].
  destruct (p c); [|done]. destruct (span p s) as [a b]. simpl in *.
  by rewrite <- IH.
Qed.

Lemma all_chars_append p a b :
  all_chars p (a +:+ b) = all_chars p a && all_chars p b.
Proof.
  induction a as [|c a IH]; simpl; [done|]. by rewrite IH, andb_assoc.
Qed.

Lemma string_take_all s : ∀ n, (String.length s ≤ n)%nat → string_take n s = s.
Proof.
  induction s as [|c s IH]; intros [|n] Hn; simpl in *; try done; try lia.
  rewrite IH; [done|lia].
Qed.

Lemma match_name_id_token name digits rest :
  name ≠ EmptyString →
  all_chars is_word name = true →
  all_chars is_digit digits = true →
  (13 ≤ String.length digits ≤ 20)%nat →
  match_name_id (name +:+ ":" +:+ digits +:+ ">" +:+ rest) = Some (name, digits).
Proof.
  intros Hname Hword Hdigits Hlen. unfold match_name_id.
  rewrite (span_all is_word name) by done.
  destruct name as [|c name]; [done|].
  change (eat ":"%char (":" +:+ digits +:+ ">" +:+ rest))
    with (Some (digits +:+ ">" +:+ rest)).
  cbv beta iota. rewrite (span_all is_digit digits) by done. cbn [fst].
  rewrite string_take_all by lia.
  destruct (Nat.ltb_spec (String.length digits) 13); [lia|done].
Qed.

(** X9: The token of a custom emoji reads back: between [<:] (or [<a:] for an
    animated one) and [>], a name of word characters and an id of 13 to 20
    digits give the emoji with that name, that id and that flag. *)
Theorem from_string_token name digits :
  name ≠ EmptyString →
  all_chars is_word name = true →
  all_chars is_digit digits = true →
  (13 ≤ String.length digits ≤ 20)%nat →
  from_string ("<:" +:+ name +:+ ":" +:+ digits +:+ ">")
    = {| emoji_animated := false; emoji_name := name;
         emoji_id := decimal digits 0 |} ∧
  from_string ("<a:" +:+ name +:+ ":" +:+ digits +:+ ">")
    = {| emoji_animated := true; emoji_name := name;
         emoji_id := decimal digits 0 |}.
Proof.
  intros Hname Hword Hdigits Hlen.
  pose proof (match_name_id_token name digits EmptyString Hname Hword Hdigits Hlen)
    as Hm.
  change (">" +:+ EmptyString) with ">" in Hm.
  unfold from_string, REGEX_match, optional. split.
  - change (eat "<"%char ("<:" +:+ name +:+ ":" +:+ digits +:+ ">"))
      with (Some (":" +:+ name +:+ ":" +:+ digits +:+ ">")).
    cbv beta iota.
    change (eat "a"%char (":" +:+ name +:+ ":" +:+ digits +:+ ">"))
      with (@None string).
    cbv beta iota.
    change (eat ":"%char (":" +:+ name +:+ ":" +:+ digits +:+ ">"))
      with (Some (name +:+ ":" +:+ digits +:+ ">")).
    cbv beta iota. by rewrite Hm.
  - change (eat "<"%char ("<a:" +:+ name +:+ ":" +:+ digits +:+ ">"))
      with (Some ("a:" +:+ name +:+ ":" +:+ digits +:+ ">")).
    cbv beta iota.
    change (eat "a"%char ("a:" +:+ name +:+ ":" +:+ digits +:+ ">"))
      with (Some (":" +:+ name +:+ ":" +:+ digits +:+ ">")).
    cbv beta iota.
    change (eat ":"%char (":" +:+ name +:+ ":" +:+ digits +:+ ">"))
      with (Some (name +:+ ":" +:+ digits +:+ ">")).
    cbv beta iota. by rewrite Hm.
Qed.

Lemma match_name_id_no_colon s : no_colon s = true → match_name_id s = None.
Proof.
  intros Hs. unfold match_name_id.
  pose proof (span_append is_word s) as Happ.
  destruct (span is_word s) as [name rest]. simpl in Happ.
  destruct name as [|c name]; [done|].
  unfold no_colon in Hs. rewrite <- Happ, all_chars_append in Hs.
  apply andb_prop in Hs as [_ Hrest].
  destruct rest as [|c' rest]; [done|]. simpl in *.
  apply andb_prop in Hrest as [Hc' _].
  by destruct (bool_decide (c' = ":"%char)).
Qed.

Lemma optional_no_colon {A} c (k : bool → string → option A) s :
  (∀ b s', no_colon s' = true → k b s' = None) →
  no_colon s = true → optional c k s = None.
Proof.
  intros Hk Hs. unfold optional, eat.
  destruct s as [|c' s]; [by apply Hk|].
  case_bool_decide; [|by apply Hk].
  rewrite Hk; [by apply Hk|].
  unfold no_colon in *. simpl in Hs. by apply andb_prop in Hs as [_ Hs].
Qed.

(** X10: A text without a colon is never taken for a custom emoji: it becomes
    the name of an emoji that is not animated and has the id derived from
    the epoch. *)
Theorem from_string_without_colon value :
  no_colon value = true →
  from_string value
    = {| emoji_animated := false; emoji_name := value;
         emoji_id := Z.shiftl DISCORD_EPOCH 22 |}.
Proof.
  intros Hno. unfold from_string, REGEX_match.
  rewrite optional_no_colon; [done| |done].
  intros _ s1 Hs1. apply optional_no_colon; [|done].
  intros animated s2 Hs2. apply optional_no_colon; [|done].
  intros _ s3 Hs3. by rewrite match_name_id_no_colon.
Qed.

End EmojiProps.

Lemma from_string_token_witness :
  @Components.from_string 1420070400000 "<:partyparrot:123456789012345>"
    = {| Components.emoji_animated := false;
         Components.emoji_name := "partyparrot";
         Components.emoji_id := Components.decimal "123456789012345" 0 |} ∧
  @Components.from_string 1420070400000 "<a:partyparrot:123456789012345>"
    = {| Components.emoji_animated := true;
         Components.emoji_name := "partyparrot";
         Components.emoji_id := Components.decimal "123456789012345" 0 |}.
Proof.
  apply (@from_string_token 1420070400000 "partyparrot" "123456789012345").
  - discriminate.
  - reflexivity.
  - reflexivity.
  - simpl. lia.
Defined.

Lemma from_string_without_colon_witness :
  @Components.from_string 1420070400000 "thumbsup"
    = {| Components.emoji_animated := false;
         Components.emoji_name := "thumbsup";
         Components.emoji_id := Z.shiftl 1420070400000 22 |}.
Proof.
  apply (@from_string_without_colon 1420070400000 "thumbsup"). reflexivity.
Defined.

Section CacheMore.
Import Cache.
Context `{UserModel}.

(** [_store_user] on a payload whose id converts: it returns, the object
    returned is the one then cached under the id, and the members and the
    objects there were are untouched. *)
Lemma store_user_returns c data key :
  py_int (ud_id data) = Some key →
  ∃ c' ref user,
    _store_user c data = inr (c', ref) ∧
    users_get c' key = Some (ref, user) ∧
    objects c' !! ref = Some user ∧
    _members c' = _members c ∧
    (∀ r u, objects c !! r = Some u → objects c' !! r = Some u) ∧
    (u_id (User_from_data data) = key → u_id user = key) ∧
    (up_to_date (User_from_data data) data = true → up_to_date user data = true).
Proof.
  intros Hkey. unfold _store_user. rewrite Hkey.
  assert (∃ c' ref user,
    inr ({| objects := <[fresh (dom (objects c)) := User_from_data data]> (objects c);
            _users := <[key := fresh (dom (objects c))]> (_users c);
            _members := _members c |}, fresh (dom (objects c)))
      = (inr (c', ref) : exception + cache * nat) ∧
    users_get c' key = Some (ref, user) ∧
    objects c' !! ref = Some user ∧
    _members c' = _members c ∧
    (∀ r u, objects c !! r = Some u → objects c' !! r = Some u) ∧
    (u_id (User_from_data data) = key → u_id user = key) ∧
    (up_to_date (User_from_data data) data = true → up_to_date user data = true))
    as Hconstruct.
  { eexists _, _, (User_from_data data). split; [reflexivity|].
    unfold users_get. simpl. rewrite !lookup_insert_eq.
    repeat split; try done.
    intros r u Hr. rewrite lookup_insert_ne; [done|].
    intros <-. apply (is_fresh (dom (objects c))).
    apply elem_of_dom. by eexists. }
  destruct (users_get c key) as [[ref user]|] eqn:Hget; [|exact Hconstruct].
  destruct (up_to_date user data) eqn:Hup; [|exact Hconstruct].
  exists c, ref, user. repeat split; try done.
  - unfold users_get in Hget. destruct (_users c !! key); [|done].
    destruct (objects c !! n) eqn:Hn; [|done]. by simplify_eq.
  - intros _. unfold up_to_date, py_eq in Hup.
    repeat (apply andb_prop in Hup as [Hup ?]).
    apply bool_decide_eq_true in Hup. rewrite <- Hup in Hkey. simpl in Hkey.
    congruence.
Qed.

(** What [collect] leaves under a key of [_users]. *)
Lemma users_get_collect c garbage key ref user :
  users_get c key = Some (ref, user) →
  users_get (collect c garbage) key
  = if bool_decide (ref ∈ garbage) then None else Some (ref, user).
Proof.
  unfold users_get, collect. simpl. intros Hget.
  destruct (_users c !! key) as [r|] eqn:Hr; [|done].
  destruct (objects c !! r) as [u|] eqn:Hu; [|done]. simplify_eq.
  case_bool_decide as Hg.
  - rewrite map_lookup_filter_None_2; [done|].
    right. intros x Hx. simpl. rewrite Hr in Hx. simplify_eq. tauto.
  - rewrite (map_lookup_filter_Some_2 _ _ key ref) by done.
    by rewrite (map_lookup_filter_Some_2 _ _ ref user).
Qed.

(** X11: After a call of [_store_user] that returns, the object returned is
    the one the cache holds under the integer of the payload's id, and the
    members and every user object there was are as before.  The cache
    holds the object for as long as it is alive: after the garbage
    collector has freed objects, the object is still the one under that
    key if it is not among them, and nothing is under that key if it
    is. *)
Theorem store_user_then_cached c data c' ref :
  _store_user c data = inr (c', ref) →
  ∃ key user,
    py_int (ud_id data) = Some key ∧
    users_get c' key = Some (ref, user) ∧
    _members c' = _members c ∧
    (∀ r u, objects c !! r = Some u → objects c' !! r = Some u) ∧
    (∀ garbage, ref ∉ garbage →
       users_get (collect c' garbage) key = Some (ref, user)) ∧
    (∀ garbage, ref ∈ garbage →
       users_get (collect c' garbage) key = None).
Proof.
  intros Hst. destruct (py_int (ud_id data)) as [key|] eqn:Hkey.
  - destruct (store_user_returns c data key Hkey)
      as (c1 & ref1 & user & Heq & Hget & _ & Hm & Hobj & _).
    rewrite Heq in Hst. injection Hst as <- <-. exists key, user.
    repeat split; try done.
    + intros garbage Hg. rewrite (users_get_collect _ _ _ _ _ Hget).
      by rewrite bool_decide_eq_false_2.
    + intros garbage Hg. rewrite (users_get_collect _ _ _ _ _ Hget).
      by rewrite bool_decide_eq_true_2.
  - unfold _store_user in Hst. by rewrite Hkey in Hst.
Qed.

(** X12: The three member handlers refuse a payload without ['guild_id'] with a
    ValueError, before anything in the cache is touched. *)
Theorem member_handlers_need_guild_id c data :
  gm_guild_id data = None →
  _process_guild_member_add c data = inl ValueError ∧
  _process_guild_member_remove c data = inl ValueError ∧
  _process_guild_member_update c data = inl (ValueError, c).
Proof.
  intros Hno.
  unfold _process_guild_member_update, _process_guild_member_add,
    _process_guild_member_remove.
  by rewrite Hno.
Qed.

(** X13: With an integer user id in the payload, and [User.from_data] taking
    the id from it, the remove handler takes out again what the add
    handler stored for the same payload, and returns it. *)
Theorem member_add_then_remove c data guild u :
  gm_guild_id data = Some guild →
  ud_id (gm_user data) = PInt u →
  u_id (User_from_data (gm_user data)) = u →
  _members c !! (guild, u) = None →
  ∃ c1 member c2,
    _process_guild_member_add c data = inr (c1, member) ∧
    _process_guild_member_remove c1 data = inr (c2, Some member) ∧
    _members c2 = _members c.
Proof.
  intros Hg Hid Hfrom Hfree.
  assert (py_int (ud_id (gm_user data)) = Some u) as Hkey by by rewrite Hid.
  destruct (store_user_returns c (gm_user data) u Hkey)
    as (c0 & ref & user & Hst & _ & Hobj & Hm & _ & Hu & _).
  specialize (Hu Hfrom).
  unfold _process_guild_member_add, _process_guild_member_remove.
  rewrite Hg, Hst, Hobj. eexists _, _, _. split; [reflexivity|].
  simpl. rewrite Hid. simpl. rewrite Hu, lookup_insert_eq.
  split; [reflexivity|]. simpl. rewrite Hm. by rewrite delete_insert_id.
Qed.

(** X14: With the user id of the payload written as text, the remove handler
    finds nothing: the member that the add handler stored for the very same
    payload stays in the cache, and the handler returns [None]. *)
Theorem member_text_id_never_removed c data s c1 member :
  ud_id (gm_user data) = PStr s →
  _process_guild_member_add c data = inr (c1, member) →
  _process_guild_member_remove c1 data = inr (c1, None) ∧
  ∃ guild, _members c1 !! (guild, m_id member) = Some member.
Proof.
  intros Hid Hadd. unfold _process_guild_member_add in Hadd.
  unfold _process_guild_member_remove.
  destruct (gm_guild_id data) as [guild|]; [|done]. rewrite Hid. simpl.
  split; [done|]. exists guild.
  destruct (_store_user c (gm_user data)) as [|[c0 ref]]; [done|].
  destruct (objects c0 !! ref); [|done].
  injection Hadd as <- <-. simpl. apply lookup_insert_eq.
Qed.

(** X15: Two members added one after the other from payloads whose user id
    is written as text never hold the same [User] object, be the two user
    payloads identical: the second add constructs a [User] that did not
    exist before it. *)
Theorem members_with_text_id_never_share_user c data1 data2 s c1 member1
  c2 member2 :
  ud_id (gm_user data2) = PStr s →
  _process_guild_member_add c data1 = inr (c1, member1) →
  _process_guild_member_add c1 data2 = inr (c2, member2) →
  objects c1 !! m_user member2 = None ∧
  m_user member2 ≠ m_user member1.
Proof.
  intros Hid Hadd1 Hadd2.
  unfold _process_guild_member_add in Hadd1, Hadd2.
  destruct (gm_guild_id data1) as [g1|]; [|done].
  destruct (gm_guild_id data2) as [g2|]; [|done].
  destruct (_store_user c (gm_user data1)) as [|[c0 ref1]]; [done|].
  destruct (objects c0 !! ref1) as [user1|] eqn:Hobj1; [|done].
  injection Hadd1 as <- <-.
  destruct (_store_user _ (gm_user data2)) as [|[c3 ref2]] eqn:Hst2; [done|].
  apply (store_user_text_id_is_new _ _ s) in Hst2; [|done].
  simpl in Hst2. apply not_elem_of_dom in Hst2.
  destruct (objects c3 !! ref2); [|done]. injection Hadd2 as <- <-. simpl.
  split; [done|]. intros Heq. rewrite Heq in Hst2. congruence.
Qed.

(** X16: With integer ids, the update handler returns the member cached so far
    (or [None]) and the new one, and [get_member] then finds the new
    one. *)
Theorem member_update_replaces c data guild u :
  gm_guild_id data = Some (PInt guild) →
  ud_id (gm_user data) = PInt u →
  u_id (User_from_data (gm_user data)) = u →
  ∃ c' member,
    _process_guild_member_update c data
      = inr (c', (_members c !! (PInt guild, u), member)) ∧
    m_data member = data ∧
    get_member c' (PInt guild) (PInt u) = inr (Some member).
Proof.
  intros Hg Hid Hfrom.
  assert (py_int (ud_id (gm_user data)) = Some u) as Hkey by by rewrite Hid.
  unfold _process_guild_member_update, _process_guild_member_remove.
  rewrite Hg, Hid. simpl.
  set (c0 := {| objects := objects c; _users := _users c;
                _members := delete (PInt guild, u) (_members c) |}).
  destruct (store_user_returns c0 (gm_user data) u Hkey)
    as (c1 & ref & user & Hst & _ & Hobj & _ & _ & Hu & _).
  specialize (Hu Hfrom).
  unfold _process_guild_member_add. rewrite Hg, Hst, Hobj.
  eexists _, _. split; [reflexivity|]. split; [reflexivity|].
  unfold get_member. simpl. by rewrite Hu, lookup_insert_eq.
Qed.

End CacheMore.

Lemma store_user_then_cached_witness :
  ∃ key user,
    Cache.py_int (Cache.ud_id Cache.bob) = Some key ∧
    Cache.users_get Cache.bob_stored key = Some (0%nat, user) ∧
    Cache._members Cache.bob_stored = Cache._members Cache.empty_cache ∧
    (∀ r u, Cache.objects Cache.empty_cache !! r = Some u →
       Cache.objects Cache.bob_stored !! r = Some u) ∧
    (∀ garbage, 0%nat ∉ garbage →
       Cache.users_get (Cache.collect Cache.bob_stored garbage) key
       = Some (0%nat, user)) ∧
    (∀ garbage, 0%nat ∈ garbage →
       Cache.users_get (Cache.collect Cache.bob_stored garbage) key = None).
Proof.
  apply (@store_user_then_cached Cache.plain_user_model Cache.empty_cache
           Cache.bob Cache.bob_stored 0%nat).
  vm_compute. reflexivity.
Defined.

Lemma member_handlers_need_guild_id_witness :
  @Cache._process_guild_member_add Cache.plain_user_model Cache.empty_cache
    {| Cache.gm_guild_id := None; Cache.gm_user := Cache.bob;
       Cache.gm_nick := Cache.PNone |} = inl Cache.ValueError ∧
  Cache._process_guild_member_remove Cache.empty_cache
    {| Cache.gm_guild_id := None; Cache.gm_user := Cache.bob;
       Cache.gm_nick := Cache.PNone |} = inl Cache.ValueError ∧
  @Cache._process_guild_member_update Cache.plain_user_model Cache.empty_cache
    {| Cache.gm_guild_id := None; Cache.gm_user := Cache.bob;
       Cache.gm_nick := Cache.PNone |} = inl (Cache.ValueError, Cache.empty_cache).
Proof.
  apply (@member_handlers_need_guild_id Cache.plain_user_model Cache.empty_cache
           {| Cache.gm_guild_id := None; Cache.gm_user := Cache.bob;
              Cache.gm_nick := Cache.PNone |}).
  reflexivity.
Defined.

Lemma member_add_then_remove_witness :
  ∃ c1 member c2,
    @Cache._process_guild_member_add Cache.plain_user_model Cache.empty_cache
      (Cache.bob_joins 7) = inr (c1, member) ∧
    Cache._process_guild_member_remove c1 (Cache.bob_joins 7)
      = inr (c2, Some member) ∧
    Cache._members c2 = Cache._members Cache.empty_cache.
Proof.
  apply (@member_add_then_remove Cache.plain_user_model Cache.empty_cache
           (Cache.bob_joins 7) (Cache.PInt 7) 43).
  - reflexivity.
  - reflexivity.
  - reflexivity.
  - reflexivity.
Defined.

Lemma member_update_replaces_witness :
  ∃ c' member,
    @Cache._process_guild_member_update Cache.plain_user_model Cache.empty_cache
      (Cache.bob_joins 7)
      = inr (c', (Cache._members Cache.empty_cache !! (Cache.PInt 7, 43), member)) ∧
    Cache.m_data member = Cache.bob_joins 7 ∧
    Cache.get_member c' (Cache.PInt 7) (Cache.PInt 43) = inr (Some member).
Proof.
  apply (@member_update_replaces Cache.plain_user_model Cache.empty_cache
           (Cache.bob_joins 7) 7 43).
  - reflexivity.
  - reflexivity.
  - reflexivity.
Defined.

Section AsgiMore.
Import Asgi.
Context `{App}.

Lemma string_app_assoc (a b c : string) : (a +:+ b) +:+ c = a +:+ (b +:+ c).
Proof.
  induction a as [|x a IH]; [done|].
  change (String x ((a +:+ b) +:+ c) = String x (a +:+ (b +:+ c))).
  by rewrite IH.
Qed.

Lemma string_app_nil_r (a : string) : a +:+ "" = a.
Proof.
  induction a as [|x a IH]; [done|].
  change (String x (a +:+ "") = String x a). by rewrite IH.
Qed.


(** X17: The checks made before authentication: a scope that is neither
    lifespan nor http is answered 501 whatever its path; an http request
    to the configured path with any method but POST is answered 405, the
    configured [method] of the endpoint playing no part. *)
Theorem early_gates (self : InteractionASGIApp) (sc : scope)
  (receive : list received) :
  (scope_type sc ≠ "lifespan" → scope_type sc ≠ "http" →
     call self sc receive = (plain 501 "Not Implemented", Return)) ∧
  (scope_type sc = "http" → scope_path sc = path self →
   scope_method sc ≠ "POST" →
     call self sc receive = (plain 405 "Method Not Allowed", Return)).
Proof.
  unfold call, __call__, _verify_request_target. split.
  - intros Hl Hh. rewrite bool_decide_eq_false_2 by done.
    by rewrite bool_decide_eq_true_2.
  - intros Hh Hp Hm. rewrite Hh.
    rewrite (bool_decide_eq_false_2 ("http" = "lifespan")) by done.
    rewrite (bool_decide_eq_false_2 ("http" ≠ "http")) by (intros Hne; by apply Hne).
    rewrite (bool_decide_eq_false_2 (scope_path sc ≠ path self))
      by (intros Hne; by apply Hne).
    by rewrite bool_decide_eq_true_2.
Qed.


(** X19: The body is put together from the request events up to the first one
    whose [more_body] is false; while every event has it true the call
    stays waiting for the next. *)
Theorem read_body_joins_chunks chunks last later body :
  Forall (λ event, ev_more_body event = true) chunks →
  ev_more_body last = false →
  read_body (chunks ++ last :: later) body
    = Some (body +:+ join_bodies (chunks ++ [last])) ∧
  read_body chunks body = None.
Proof.
  intros Hmore Hlast. revert body.
  induction Hmore as [|event chunks Hev _ IH]; intros body; simpl.
  - rewrite Hlast. split; [|done]. unfold join_bodies. simpl.
    by rewrite string_app_nil_r.
  - rewrite Hev. destruct (IH (body +:+ ev_body event)) as [-> ->].
    split; [|done]. f_equal. unfold join_bodies. simpl.
    apply string_app_assoc.
Qed.

(** X20: A ping is answered on the spot: a POST to the configured path with
    a signature that is UTF-8 and a timestamp, whose events all carry their
    keys up to the last of the body, whose body the signature check accepts
    and which decodes to a document with type 1, gets status 200 and the
    bytes of {"type": 1}; [handle_interaction] has no part in the
    answer. *)
Theorem ping_is_answered_directly (self : InteractionASGIApp) (sc : scope)
  (receive : list incoming) signature timestamp body data :
  scope_type sc = "http" → scope_path sc = path self →
  scope_method sc = "POST" →
  scan_headers (scope_headers sc) None None = Some (Some signature, Some timestamp) →
  receive_body receive "" = Returned body →
  utf8_valid signature = true →
  authenticate_request signature timestamp body = true →
  json_loads body = inr data →
  is_ping data = inr true →
  __call__ self sc receive
    = ([ResponseStart 200 [("content-type", "application/json")];
        ResponseBody (Bytes
          ("{" +:+ String (Ascii.ascii_of_nat 34) "type"
               +:+ String (Ascii.ascii_of_nat 34) ": 1}"))], Return).
Proof.
  intros Hh Hp Hm Hscan Hbody Hutf Hauth Hjson Hping.
  unfold __call__. rewrite Hh.
  rewrite (bool_decide_eq_false_2 ("http" = "lifespan")) by done.
  rewrite (verify_request_target_passes self sc Hh Hp Hm).
  unfold _authenticate_request.
  by rewrite Hscan, Hbody, Hutf, Hauth, Hjson, Hping.
Qed.

(** X21: No request reaches [json.loads] or [handle_interaction] unless the
    signature check accepted it: with a check that rejects everything,
    whatever is sent to the endpoint outside the lifespan protocol is
    answered with status 501, 404, 405 or 401, or the call is left waiting
    for the body, or it raises with nothing sent.  For a POST to the
    configured path that has a signature and a timestamp: a first event
    without ['body'] or ['more_body'] is a KeyError; once the body is read,
    a signature that is not UTF-8 is a UnicodeDecodeError, and any other
    is answered 401. *)
Theorem unauthenticated_never_dispatched (self : InteractionASGIApp)
  (sc : scope) (receive : list incoming) :
  (∀ signature timestamp body,
     authenticate_request signature timestamp body = false) →
  scope_type sc ≠ "lifespan" →
  __call__ self sc receive ∈
    [([ResponseStart 501 [("content-type", "text/plain")];
       ResponseBody (Bytes "Not Implemented")], Return);
     ([ResponseStart 404 [("content-type", "text/plain")];
       ResponseBody (Bytes "Not Found")], Return);
     ([ResponseStart 405 [("content-type", "text/plain")];
       ResponseBody (Bytes "Method Not Allowed")], Return);
     ([ResponseStart 401 [("content-type", "text/plain")];
       ResponseBody (Bytes "Unauthorized")], Return);
     ([], Pending);
     ([], Raise "KeyError");
     ([], Raise "UnicodeDecodeError")] ∧
  ∀ signature timestamp,
    scope_type sc = "http" → scope_path sc = path self →
    scope_method sc = "POST" →
    scan_headers (scope_headers sc) None None
      = Some (Some signature, Some timestamp) →
    (∀ event later,
       receive = event :: later →
       in_body event = None ∨ in_more_body event = None →
       __call__ self sc receive = ([], Raise "KeyError")) ∧
    (∀ body,
       receive_body receive "" = Returned body →
       utf8_valid signature = false →
       __call__ self sc receive = ([], Raise "UnicodeDecodeError")) ∧
    (∀ body,
       receive_body receive "" = Returned body →
       utf8_valid signature = true →
       __call__ self sc receive
       = ([ResponseStart 401 [("content-type", "text/plain")];
           ResponseBody (Bytes "Unauthorized")], Return)).
Proof.
  intros Hreject Hl. split.
  - unfold __call__, _verify_request_target.
    rewrite bool_decide_eq_false_2 by done.
    case_bool_decide; [set_solver|].
    case_bool_decide; [set_solver|].
    case_bool_decide; [set_solver|].
    unfold _authenticate_request.
    destruct (scan_headers _ None None) as [[[signature|] [timestamp|]]|];
      try (simpl; set_solver).
    assert (Hbody : ∀ events body,
      receive_body events body = Waiting ∨
      receive_body events body = Raising "KeyError" ∨
      ∃ whole, receive_body events body = Returned whole).
    { induction events as [|request rest IH]; intros body; [by left|].
      simpl. destruct (in_body request) as [piece|]; [|by right; left].
      destruct (in_more_body request) as [[]|];
        [apply IH|right; right; by eexists|by right; left]. }
    destruct (Hbody receive "") as [Hb|[Hb|[whole Hb]]]; rewrite Hb;
      [simpl; clear; set_solver..|].
    destruct (utf8_valid signature); [|simpl; clear; set_solver].
    rewrite Hreject. simpl. clear. set_solver.
  - intros signature timestamp Hh Hp Hm Hscan.
    unfold __call__. rewrite Hh.
    rewrite (bool_decide_eq_false_2 ("http" = "lifespan")) by done.
    rewrite (verify_request_target_passes self sc Hh Hp Hm).
    unfold _authenticate_request. rewrite Hscan. repeat split.
    + intros event later -> Hlack. simpl.
      destruct (in_body event) as [piece|]; [|done].
      destruct Hlack as [Hlack|Hlack]; [done|]. by rewrite Hlack.
    + intros body -> Hutf. by rewrite Hutf.
    + intros body -> Hutf. by rewrite Hutf, Hreject.
Qed.

End AsgiMore.

Lemma early_gates_witness :
  @Asgi.call Asgi.open_app {| Asgi.method := "PUT"; Asgi.path := "/" |}
     {| Asgi.scope_type := "websocket"; Asgi.scope_path := "/";
        Asgi.scope_method := "POST"; Asgi.scope_headers := [] |} []
    = (Asgi.plain 501 "Not Implemented", Asgi.Return) ∧
  @Asgi.call Asgi.open_app {| Asgi.method := "PUT"; Asgi.path := "/" |}
     Asgi.put_request []
    = (Asgi.plain 405 "Method Not Allowed", Asgi.Return).
Proof.
  split.
  - apply (@early_gates Asgi.open_app {| Asgi.method := "PUT"; Asgi.path := "/" |}
             {| Asgi.scope_type := "websocket"; Asgi.scope_path := "/";
                Asgi.scope_method := "POST"; Asgi.scope_headers := [] |} []).
    + discriminate.
    + discriminate.
  - apply (@early_gates Asgi.open_app {| Asgi.method := "PUT"; Asgi.path := "/" |}
             Asgi.put_request []).
    + reflexivity.
    + reflexivity.
    + discriminate.
Defined.


Lemma read_body_joins_chunks_witness :
  Asgi.read_body
    ([Asgi.chunk "{'type" true; Asgi.chunk "': " true]
       ++ Asgi.chunk "1}" false :: [Asgi.chunk "late" false]) ""
    = Some ("" +:+ Asgi.join_bodies
         ([Asgi.chunk "{'type" true; Asgi.chunk "': " true] ++ [Asgi.chunk "1}" false])) ∧
  Asgi.read_body [Asgi.chunk "{'type" true; Asgi.chunk "': " true] "" = None.
Proof.
  apply (read_body_joins_chunks
           [Asgi.chunk "{'type" true; Asgi.chunk "': " true]
           (Asgi.chunk "1}" false) [Asgi.chunk "late" false] "").
  - repeat constructor.
  - reflexivity.
Defined.

Lemma ping_is_answered_directly_witness :
  @Asgi.__call__ Asgi.open_app Asgi.endpoint Asgi.post_signed
     (Asgi.carrying <$> [Asgi.chunk "{" true;
         Asgi.chunk (String (Ascii.ascii_of_nat 34) "type") true;
         Asgi.chunk (String (Ascii.ascii_of_nat 34) ": 1}") false])
    = ([ResponseStart 200 [("content-type", "application/json")];
        ResponseBody (Bytes
          ("{" +:+ String (Ascii.ascii_of_nat 34) "type"
               +:+ String (Ascii.ascii_of_nat 34) ": 1}"))], Asgi.Return).
Proof.
  apply (@ping_is_answered_directly Asgi.open_app Asgi.endpoint Asgi.post_signed
           (Asgi.carrying <$> [Asgi.chunk "{" true;
              Asgi.chunk (String (Ascii.ascii_of_nat 34) "type") true;
              Asgi.chunk (String (Ascii.ascii_of_nat 34) ": 1}") false])
           "c0ffee" "1700000000" Asgi.ping_text
           (JDict [("type", JInt 1)])); reflexivity.
Defined.

Lemma unauthenticated_never_dispatched_witness :
  @Asgi.__call__ Asgi.closed_app Asgi.endpoint Asgi.post_signed
     [Asgi.disconnect] ∈
    [([ResponseStart 501 [("content-type", "text/plain")];
       ResponseBody (Bytes "Not Implemented")], Asgi.Return);
     ([ResponseStart 404 [("content-type", "text/plain")];
       ResponseBody (Bytes "Not Found")], Asgi.Return);
     ([ResponseStart 405 [("content-type", "text/plain")];
       ResponseBody (Bytes "Method Not Allowed")], Asgi.Return);
     ([ResponseStart 401 [("content-type", "text/plain")];
       ResponseBody (Bytes "Unauthorized")], Asgi.Return);
     ([], Asgi.Pending);
     ([], Asgi.Raise "KeyError");
     ([], Asgi.Raise "UnicodeDecodeError")] ∧
  @Asgi.__call__ Asgi.closed_app Asgi.endpoint Asgi.post_signed
     [Asgi.disconnect] = ([], Asgi.Raise "KeyError") ∧
  @Asgi.__call__ Asgi.closed_app Asgi.endpoint Asgi.post_garbled
     [Asgi.carrying (Asgi.chunk Asgi.ping_text false)]
    = ([], Asgi.Raise "UnicodeDecodeError") ∧
  @Asgi.__call__ Asgi.closed_app Asgi.endpoint Asgi.post_signed
     [Asgi.carrying (Asgi.chunk Asgi.ping_text false)]
    = ([ResponseStart 401 [("content-type", "text/plain")];
        ResponseBody (Bytes "Unauthorized")], Asgi.Return).
Proof.
  split; [|split; [|split]].
  - apply (@unauthenticated_never_dispatched Asgi.closed_app Asgi.endpoint
             Asgi.post_signed [Asgi.disconnect]).
    + reflexivity.
    + discriminate.
  - apply (proj2 (@unauthenticated_never_dispatched Asgi.closed_app
             Asgi.endpoint Asgi.post_signed [Asgi.disconnect]
             (λ _ _ _, eq_refl) ltac:(discriminate))
             "c0ffee" "1700000000" eq_refl eq_refl eq_refl eq_refl)
      with (event := Asgi.disconnect) (later := []).
    + reflexivity.
    + left. reflexivity.
  - apply (proj2 (@unauthenticated_never_dispatched Asgi.closed_app
             Asgi.endpoint Asgi.post_garbled
             [Asgi.carrying (Asgi.chunk Asgi.ping_text false)]
             (λ _ _ _, eq_refl) ltac:(discriminate))
             (String (Ascii.ascii_of_nat 255) EmptyString) "1700000000"
             eq_refl eq_refl eq_refl eq_refl)
      with (body := Asgi.ping_text).
    + reflexivity.
    + reflexivity.
  - apply (proj2 (@unauthenticated_never_dispatched Asgi.closed_app
             Asgi.endpoint Asgi.post_signed
             [Asgi.carrying (Asgi.chunk Asgi.ping_text false)]
             (λ _ _ _, eq_refl) ltac:(discriminate))
             "c0ffee" "1700000000" eq_refl eq_refl eq_refl eq_refl)
      with (body := Asgi.ping_text).
    + reflexivity.
    + reflexivity.
Defined.

Section ContextMenuMore.
Import ContextMenu.
Context `{Hierarchy}.

Lemma first_argument_of_classes annotations argument :
  Forall (λ a, is_class a = true) annotations →
  first_argument annotations argument = argument ∨
  is_class (first_argument annotations argument) = true.
Proof.
  destruct 1 as [|a rest Ha _]; [by left|]. right.
  destruct a; try done.
Qed.

(** X22: A user command set up from a callback whose parameters are annotated
    with classes (or not annotated at all) cannot be invoked: for every
    interaction [resolve_value] raises CommandSetupError and
    [handle_interaction] starts nothing. *)
Theorem user_command_never_resolves function annotations interaction :
  Forall (λ a, is_class a = true) annotations →
  ∃ message,
    resolve_value (_set_callback new_command function annotations) interaction
      = CommandSetupError message ∧
    handle_interaction (_set_callback new_command function annotations) interaction
      = Raised message.
Proof.
  intros Hclasses. unfold handle_interaction, resolve_value, _set_callback.
  cbn [argument callback new_command].
  destruct (target_id interaction) as [[| |]|]; try (eexists; by split).
  - destruct (first_argument_of_classes annotations MISSING Hclasses) as [->|Hc].
    + eexists; by split.
    + destruct (first_argument annotations MISSING); try done. eexists; by split.
  - destruct (first_argument_of_classes annotations MISSING Hclasses) as [->|Hc].
    + eexists; by split.
    + destruct (first_argument annotations MISSING); try done. eexists; by split.
Qed.

End ContextMenuMore.

Lemma user_command_never_resolves_witness :
  ∃ message,
    @ContextMenu.resolve_value (λ _ _, true)
      (@ContextMenu._set_callback (λ _ _, true) ContextMenu.new_command "info"
         ContextMenu.info_annotations) ContextMenu.on_user_5
      = ContextMenu.CommandSetupError message ∧
    @ContextMenu.handle_interaction (λ _ _, true)
      (@ContextMenu._set_callback (λ _ _, true) ContextMenu.new_command "info"
         ContextMenu.info_annotations) ContextMenu.on_user_5
      = ContextMenu.Raised message.
Proof.
  apply (@user_command_never_resolves (λ _ _, true) "info"
           ContextMenu.info_annotations ContextMenu.on_user_5).
  repeat constructor.
Defined.

Section SubmoduleProps.
Import Ext.
Import Stdlib.Strings.Ascii.

Lemma startswith_spec s : ∀ prefix,
  startswith s prefix = true ↔ ∃ rest, s = prefix +:+ rest.
Proof.
  induction s as [|c s IH]; intros [|p prefix]; simpl.
  - split; [by exists EmptyString|done].
  - split; [done|]. by intros [rest Hrest].
  - split; [by exists (String c s)|done].
  - rewrite andb_true_iff, bool_decide_eq_true, IH. split.
    + intros [-> [rest ->]]. by exists rest.
    + intros [rest Hrest]. injection Hrest as -> ->. split; [done|by exists rest].
Qed.

Lemma is_submodule_spec a b :
  _is_submodule a b = true ↔ a = b ∨ ∃ rest, a = b +:+ "." +:+ rest.
Proof.
  unfold _is_submodule. rewrite orb_true_iff, bool_decide_eq_true, startswith_spec.
  split; (intros [?|[rest Hrest]]; [by left|right; exists rest]).
  - by rewrite Hrest, string_app_assoc.
  - by rewrite Hrest, string_app_assoc.
Qed.

Lemma string_app_inj_l (a : string) : ∀ b c, a +:+ b = a +:+ c → b = c.
Proof.
  induction a as [|x a IH]; intros b c Heq; [done|].
  apply IH. by injection Heq.
Qed.

(** X23: Being part of a module is transitive: a submodule of a submodule of
    [c] is a submodule of [c]. *)
Theorem is_submodule_transitive a b c :
  _is_submodule a b = true → _is_submodule b c = true →
  _is_submodule a c = true.
Proof.
  rewrite !is_submodule_spec.
  intros [->|[r1 ->]] [->|[r2 ->]]; try (by left); try (right; by eexists).
  right. exists (r2 +:+ "." +:+ r1). by rewrite !string_app_assoc.
Qed.

Lemma is_submodule_transitive_witness :
  _is_submodule "pkg.ext.sub" "pkg" = true.
Proof.
  apply (is_submodule_transitive "pkg.ext.sub" "pkg.ext" "pkg"); reflexivity.
Defined.

(** X24: The dot is a boundary: [b] with a dot and anything behind it is part of
    [b], and [b] followed by any other character is not. *)
Theorem is_submodule_needs_dot b c rest :
  _is_submodule (b +:+ "." +:+ rest) b = true ∧
  (c ≠ "."%char → _is_submodule (b +:+ String c rest) b = false).
Proof.
  split.
  - apply is_submodule_spec. right. by exists rest.
  - intros Hc. apply not_true_is_false. rewrite is_submodule_spec.
    intros [Heq|[r Heq]].
    + assert (b +:+ String c rest = b +:+ "") as Heq'
        by by rewrite string_app_nil_r.
      by apply string_app_inj_l in Heq'.
    + apply string_app_inj_l in Heq. by injection Heq.
Qed.

Lemma is_submodule_needs_dot_witness :
  _is_submodule ("pkg.ext" +:+ "." +:+ "sub") "pkg.ext" = true ∧
  _is_submodule ("pkg.ext" +:+ String "r"%char "a") "pkg.ext" = false.
Proof.
  split.
  - apply (is_submodule_needs_dot "pkg.ext" "r"%char "sub").
  - apply (is_submodule_needs_dot "pkg.ext" "r"%char "a"). discriminate.
Defined.

End SubmoduleProps.

Section ExtMore.
Import Ext.

(** A loop over the items of a dictionary that inserts each of them, when
    none of the keys is there yet. *)
Lemma foldl_inserts {V} (f : gmap string V → string * V → gmap string V)
  (l : list (string * V)) : ∀ c,
  (∀ c k v, c !! k = None → f c (k, v) = <[k := v]> c) →
  NoDup l.*1 →
  (∀ k, k ∈ l.*1 → c !! k = None) →
  foldl f c l = list_to_map l ∪ c.
Proof.
  induction l as [|[k v] l IH]; intros c Hf Hnd Hfree; simpl.
  - by rewrite (left_id_L ∅ (∪)).
  - inversion Hnd as [|? ? Hk Hnd']; subst.
    rewrite Hf by (apply Hfree; by left).
    rewrite IH; [|done|done|].
    + rewrite <- insert_union_l.
      by rewrite insert_union_r by by apply not_elem_of_list_to_map_1.
    + intros k' Hk'. rewrite lookup_insert_ne by (intros ->; done).
      apply Hfree. by right.
Qed.

(** A loop over the items of a dictionary that deletes the key of each of
    them, when each is in the map it runs on. *)
Lemma foldl_deletes {V E} (f : gmap string V * E → string * V → gmap string V * E)
  (l : list (string * V)) : ∀ c e,
  (∀ c e k v, c !! k = Some v → f (c, e) (k, v) = (delete k c, e)) →
  NoDup l.*1 →
  (∀ k v, (k, v) ∈ l → c !! k = Some v) →
  foldl f (c, e) l = (c ∖ list_to_map l, e).
Proof.
  induction l as [|[k v] l IH]; intros c e Hf Hnd Hin; simpl.
  - by rewrite map_difference_empty.
  - inversion Hnd as [|? ? Hk Hnd']; subst.
    rewrite Hf by (apply Hin; by left).
    rewrite IH; [|done|done|].
    + f_equal. apply map_eq. intros j.
      rewrite !lookup_difference. destruct (decide (j = k)) as [->|Hne].
      * by rewrite lookup_insert_eq, lookup_delete_eq,
          (not_elem_of_list_to_map_1 l k).
      * by rewrite lookup_insert_ne, lookup_delete_ne.
    + intros k' v' Hin'. rewrite lookup_delete_ne.
      * apply Hin. by right.
      * intros ->. apply Hk. apply list_elem_of_fmap. by exists (k', v').
Qed.

Lemma load_events_copy (events : gmap string (list string)) :
  load_events events ∅ = events.
Proof.
  unfold load_events. rewrite foldl_inserts.
  - by rewrite list_to_map_to_list, (right_id_L ∅ (∪)).
  - intros c k v Hk. by rewrite Hk.
  - apply NoDup_fst_map_to_list.
  - intros. apply lookup_empty.
Qed.

Lemma load_listeners_disjoint (own target : listeners) :
  own ##ₘ target → load_listeners own target = own ∪ target.
Proof.
  intros Hdisj. unfold load_listeners. rewrite foldl_inserts.
  - by rewrite list_to_map_to_list.
  - intros c k v Hk. by rewrite Hk, load_events_copy.
  - apply NoDup_fst_map_to_list.
  - intros k Hk. apply list_elem_of_fmap in Hk as [[k' v] [-> Hin]].
    apply elem_of_map_to_list in Hin. by eapply map_disjoint_Some_l.
Qed.

Lemma list_remove_middle {A} `{EqDecision A} (x : A) (l r : list A) :
  x ∉ l → list_remove x (l ++ x :: r) = Some (l ++ r).
Proof.
  induction l as [|y l IH]; intros Hnot; simpl.
  - by rewrite bool_decide_eq_true_2.
  - rewrite bool_decide_eq_false_2 by (intros ->; apply Hnot; by left).
    rewrite IH; [done|]. intros Hin. apply Hnot. by right.
Qed.

Lemma remove_callbacks_all callbacks : ∀ rest to_raise,
  remove_callbacks callbacks (callbacks ++ rest) to_raise = (rest, to_raise).
Proof.
  unfold remove_callbacks.
  induction callbacks as [|c callbacks IH]; intros rest to_raise; [done|].
  simpl. rewrite bool_decide_eq_true_2 by done. apply IH.
Qed.

Lemma unload_events_all (events : gmap string (list string)) to_raise :
  unload_events events events to_raise = (∅, to_raise).
Proof.
  unfold unload_events. rewrite foldl_deletes.
  - by rewrite list_to_map_to_list, map_difference_diag.
  - intros c e k v Hk. rewrite Hk.
    rewrite <- (app_nil_r v) at 2. by rewrite remove_callbacks_all.
  - apply NoDup_fst_map_to_list.
  - intros k v Hin. by apply elem_of_map_to_list.
Qed.

Lemma unload_listeners_disjoint (own target : listeners) to_raise :
  own ##ₘ target →
  unload_listeners own (own ∪ target) to_raise = (target, to_raise).
Proof.
  intros Hdisj. unfold unload_listeners. rewrite foldl_deletes.
  - rewrite list_to_map_to_list. f_equal. apply map_eq. intros k.
    rewrite lookup_difference, lookup_union.
    destruct (own !! k) as [v|] eqn:Hown; [|by rewrite (left_id_L None _)].
    symmetry. by eapply map_disjoint_Some_l.
  - intros c e k v Hk. rewrite Hk, unload_events_all.
    by rewrite bool_decide_eq_true_2.
  - apply NoDup_fst_map_to_list.
  - intros k v Hin. apply elem_of_map_to_list in Hin.
    by apply lookup_union_Some_l.
Qed.

Lemma unload_commands_difference (own target : commands) :
  unload_commands own target = target ∖ own.
Proof.
  unfold unload_commands.
  rewrite <- (list_to_map_to_list own) at 2.
  generalize (map_to_list own) as l. intros l. revert target.
  induction l as [|[k v] l IH]; intros target; simpl.
  - by rewrite map_difference_empty.
  - rewrite IH. apply map_eq. intros j. rewrite !lookup_difference.
    destruct (decide (j = k)) as [->|Hne].
    + rewrite lookup_insert_eq, lookup_delete_eq. by destruct (list_to_map l !! k).
    + by rewrite lookup_insert_ne, lookup_delete_ne.
Qed.

Lemma unload_regex_components_all (own : list (string * string)) :
  ∀ target to_raise,
  (∀ element, element ∈ own → element ∉ target) →
  unload_regex_components own (target ++ own) to_raise = (target, to_raise).
Proof.
  unfold unload_regex_components.
  induction own as [|element own IH]; intros target to_raise Hnot; simpl.
  - by rewrite app_nil_r.
  - rewrite list_remove_middle by (apply Hnot; by left).
    apply IH. intros e He. apply Hnot. by right.
Qed.

Lemma unload_commands_field self target cs :
  target_commands target = Some cs →
  target_commands (unload self target).1.2
    = Some (unload_commands (_commands self) cs).
Proof.
  intros Hcs. unfold unload. rewrite Hcs.
  destruct (target_listeners target) as [ls|];
    [destruct (unload_listeners _ ls [])|];
    (destruct (target_regex_components target) as [rs|];
     [destruct (unload_regex_components _ rs _)|]); done.
Qed.

(** X25: Whatever else fails on the way, after [unload] no command name of the
    extension is left among the target's commands, and the target's other
    commands are as they were. *)
Theorem unload_removes_every_command self target cs :
  target_commands target = Some cs →
  ∃ cs', target_commands (unload self target).1.2 = Some cs' ∧
    ∀ name, cs' !! name =
      match _commands self !! name with
      | Some _ => None
      | None => cs !! name
      end.
Proof.
  intros Hcs. exists (unload_commands (_commands self) cs).
  split; [by apply unload_commands_field|].
  intros name. by rewrite unload_commands_difference, lookup_difference.
Qed.

Lemma unload_removes_every_command_witness :
  ∃ cs', target_commands (unload ready_ping busy_target).1.2 = Some cs' ∧
    ∀ name, cs' !! name =
      match _commands ready_ping !! name with
      | Some _ => None
      | None => ({["help" := "help command"]} : commands) !! name
      end.
Proof.
  apply (unload_removes_every_command ready_ping busy_target
           {["help" := "help command"]}).
  reflexivity.
Defined.

(** X26: [load] overwrites a command of the target that has the name of one of
    the extension's, and [unload] then deletes the name: after the round
    trip the target has lost that command of its own, and has its other
    commands back. *)
Theorem load_unload_commands self target data cs :
  target_commands target = Some cs →
  ∃ cs', target_commands
           (unload (load self target data).1 (load self target data).2).1.2
         = Some cs' ∧
    ∀ name, cs' !! name =
      match _commands self !! name with
      | Some _ => None
      | None => cs !! name
      end.
Proof.
  intros Hcs. exists (unload_commands (_commands self) (_commands self ∪ cs)).
  split.
  - apply (unload_commands_field (load self target data).1
             (load self target data).2 (_commands self ∪ cs)).
    unfold load. simpl. by rewrite Hcs.
  - intros name. rewrite unload_commands_difference, lookup_difference.
    destruct (_commands self !! name) eqn:Hown; [done|].
    by rewrite lookup_union_r.
Qed.

Lemma load_unload_commands_witness :
  ∃ cs', target_commands
           (unload (load ready_ping busy_target JNull).1
                   (load ready_ping busy_target JNull).2).1.2
         = Some cs' ∧
    ∀ name, cs' !! name =
      match _commands ready_ping !! name with
      | Some _ => None
      | None => ({["help" := "help command"]} : commands) !! name
      end.
Proof.
  apply (load_unload_commands ready_ping busy_target JNull
           {["help" := "help command"]}).
  reflexivity.
Defined.

(** X27: The round trip for any extension: loaded onto a target that shares no
    event name and no command name with it, and holds none of its pattern
    components, and unloaded again, the extension leaves the target exactly
    as it was and no failure is recorded. *)
Theorem load_unload_disjoint_round_trip self data ls cs rs :
  _listeners self ##ₘ ls →
  _commands self ##ₘ cs →
  (∀ element, element ∈ _regex_components self → element ∉ rs) →
  let target := {| target_listeners := Some ls; target_commands := Some cs;
                   target_regex_components := Some rs |} in
  unload (load self target data).1 (load self target data).2
  = ({| _listeners := _listeners self; _commands := _commands self;
        _regex_components := _regex_components self; _data := None |},
     target, []).
Proof.
  intros Hls Hcs Hrs target. unfold unload, load, target.
  cbn [fst snd _listeners _commands _regex_components _data target_listeners
       target_commands target_regex_components fmap option_fmap option_map].
  rewrite load_listeners_disjoint, unload_listeners_disjoint by done.
  rewrite unload_commands_difference.
  rewrite unload_regex_components_all by done.
  assert ((_commands self ∪ cs) ∖ _commands self = cs) as ->; [|done].
  apply map_eq. intros k. rewrite lookup_difference, lookup_union.
  destruct (_commands self !! k) as [v|] eqn:Hown; [|by rewrite (left_id_L None _)].
  symmetry. by eapply map_disjoint_Some_l.
Qed.

Lemma load_unload_disjoint_round_trip_witness :
  unload
    (load ready_ping
       {| target_listeners := Some {["message" := {["Message" := ["log"]]}]};
          target_commands := Some {["help" := "help command"]};
          target_regex_components := Some [("^vote-", "vote")] |} JNull).1
    (load ready_ping
       {| target_listeners := Some {["message" := {["Message" := ["log"]]}]};
          target_commands := Some {["help" := "help command"]};
          target_regex_components := Some [("^vote-", "vote")] |} JNull).2
  = ({| _listeners := _listeners ready_ping; _commands := _commands ready_ping;
        _regex_components := _regex_components ready_ping; _data := None |},
     {| target_listeners := Some {["message" := {["Message" := ["log"]]}]};
        target_commands := Some {["help" := "help command"]};
        target_regex_components := Some [("^vote-", "vote")] |}, []).
Proof.
  apply (load_unload_disjoint_round_trip ready_ping JNull
           {["message" := {["Message" := ["log"]]}]}
           {["help" := "help command"]} [("^vote-", "vote")]).
  - apply map_disjoint_singleton_l. reflexivity.
  - apply map_disjoint_singleton_l. reflexivity.
  - simpl. intros element Hin. by apply elem_of_nil in Hin.
Defined.

End ExtMore.

Section RespondProps.
Import Models.
Context `{ResponseModels}.

(** X28: [update] answers as [respond] does on the same arguments, but for the
    response type, 7 in place of 4. *)
Theorem update_is_respond_with_type_7 content tts embeds allowed_mentions
  ephemeral components :
  update content tts embeds allowed_mentions ephemeral components
  = (with_type 7 <$> (respond content tts embeds allowed_mentions ephemeral components).1,
     (respond content tts embeds allowed_mentions ephemeral components).2).
Proof.
  unfold update, respond.
  destruct (dump_fields _) as [data|]; reflexivity.
Qed.

(** X29: The status line goes out before the body is serialised.  An
    [allowed_mentions] or [components] argument that is given but false in
    a boolean context goes into the data as the object it is, not through
    its [data()] or [to_dict()]: when [json.dumps] cannot write that object,
    it raises after the response has been started, and no body follows.  In
    every other case the whole response is sent. *)
Theorem respond_fails_after_start content tts embeds allowed_mentions
  ephemeral components :
  if given_false_and_opaque allowed_mentions components
  then respond content tts embeds allowed_mentions ephemeral components
       = ([ResponseStart 200 [("content-type", "application/json")]],
          Some JsonTypeError)
  else ∃ data,
       respond content tts embeds allowed_mentions ephemeral components
       = ([ResponseStart 200 [("content-type", "application/json")];
           ResponseBody (JsonDump
             (JDict [("type", JInt 4); ("data", JDict data)]))], None).
Proof.
  unfold given_false_and_opaque, false_and_opaque, respond.
  destruct content as [|text], tts as [|speak], embeds as [|items],
    allowed_mentions as [|a], ephemeral as [|[]], components as [|[l|c]];
    try destruct (allowed_mentions_bool a);
    try destruct (component_list_bool (ComponentList_new l));
    try destruct (component_list_bool c);
    simpl;
    try (destruct (allowed_mentions_dumps a) eqn:?; simpl);
    try (destruct (component_list_dumps (ComponentList_new l)) eqn:?; simpl);
    try (destruct (component_list_dumps c) eqn:?; simpl);
    try reflexivity; eexists; reflexivity.
Qed.

End RespondProps.

Lemma respond_fails_after_start_witness :
  @Models.respond Models.sample_models (Models.Given "hello") Models.MISSING
     Models.MISSING (Models.Given []) Models.MISSING Models.MISSING
  = ([ResponseStart 200 [("content-type", "application/json")]],
     Some Models.JsonTypeError) ∧
  ∃ data,
    @Models.respond Models.sample_models (Models.Given "hello") Models.MISSING
       Models.MISSING Models.MISSING Models.MISSING
       (Models.Given (inr []))
    = ([ResponseStart 200 [("content-type", "application/json")];
        ResponseBody (JsonDump
          (JDict [("type", JInt 4); ("data", JDict data)]))], None).
Proof.
  split.
  - exact (@respond_fails_after_start Models.sample_models
             (Models.Given "hello") Models.MISSING Models.MISSING
             (Models.Given []) Models.MISSING Models.MISSING).
  - exact (@respond_fails_after_start Models.sample_models
             (Models.Given "hello") Models.MISSING Models.MISSING
             Models.MISSING Models.MISSING (Models.Given (inr []))).
Defined.

Lemma member_text_id_never_removed_witness :
  Cache._process_guild_member_remove Cache.alice_cached Cache.alice_joins
    = inr (Cache.alice_cached, None) ∧
  ∃ guild, Cache._members Cache.alice_cached
             !! (guild, Cache.m_id Cache.alice_member) = Some Cache.alice_member.
Proof.
  apply (@member_text_id_never_removed Cache.plain_user_model Cache.empty_cache
           Cache.alice_joins "42" Cache.alice_cached Cache.alice_member).
  - reflexivity.
  - vm_compute. reflexivity.
Defined.

Lemma members_with_text_id_never_share_user_witness :
  Cache.objects Cache.alice_cached
    !! Cache.m_user {| Cache.m_id := 42; Cache.m_user := 1;
                       Cache.m_data := Cache.alice_joins |} = None ∧
  Cache.m_user {| Cache.m_id := 42; Cache.m_user := 1;
                  Cache.m_data := Cache.alice_joins |}
    ≠ Cache.m_user Cache.alice_member.
Proof.
  eapply (@members_with_text_id_never_share_user Cache.plain_user_model
            Cache.empty_cache Cache.alice_joins Cache.alice_joins "42"
            Cache.alice_cached Cache.alice_member).
  - reflexivity.
  - vm_compute. reflexivity.
  - vm_compute. reflexivity.
Defined.

Section ResolvedProps.
Import Resolved.
Context `{ResolvedModels}.

Lemma decode_users_grows users : ∀ out us key,
  decode_users users out = Some us → is_Some (out !! key) → is_Some (us !! key).
Proof.
  induction users as [|[k v] users IH]; intros out us key Hdec Hin;
    cbn [decode_users] in Hdec.
  - by simplify_eq.
  - destruct (Cache.py_int (Cache.PStr k)) as [z|]; [|done].
    apply (IH _ _ _ Hdec). destruct (decide (z = key)) as [->|Hne].
    + rewrite lookup_insert_eq. by eexists.
    + by rewrite lookup_insert_ne.
Qed.

Lemma decode_users_has users : ∀ out us k key,
  decode_users users out = Some us →
  truthy (items_get users k) = true →
  Cache.py_int (Cache.PStr k) = Some key →
  is_Some (us !! key).
Proof.
  induction users as [|[k' v] users IH]; intros out us k key Hdec Htrue Hkey;
    cbn [decode_users] in Hdec.
  - done.
  - destruct (Cache.py_int (Cache.PStr k')) as [z|] eqn:Hz; [|done].
    destruct (decide (k' = k)) as [->|Hne].
    + rewrite Hkey in Hz. injection Hz as <-.
      apply (decode_users_grows _ _ _ _ Hdec). rewrite lookup_insert_eq. by eexists.
    + apply (IH _ _ k key Hdec); [|done].
      unfold items_get in *. simpl in Htrue.
      by rewrite decide_False in Htrue by done;
        destruct (list_find _ users) as [[? [? ?]]|].
Qed.

Lemma decode_members_within users us members : ∀ out ms,
  decode_users users ∅ = Some us →
  decode_members users members out = Some ms →
  (∀ key, is_Some (out !! key) → is_Some (us !! key)) →
  ∀ key, is_Some (ms !! key) → is_Some (us !! key).
Proof.
  induction members as [|[k v] members IH]; intros out ms Hus Hdec Hout;
    cbn [decode_members] in Hdec.
  - by simplify_eq.
  - destruct (truthy (items_get users k)) eqn:Htrue.
    + destruct (Cache.py_int (Cache.PStr k)) as [z|] eqn:Hz; [|done].
      apply (IH _ _ Hus Hdec). intros key.
      destruct (decide (z = key)) as [->|Hne].
      * intros _. by eapply decode_users_has.
      * rewrite lookup_insert_ne by done. apply Hout.
    + by apply (IH _ _ Hus Hdec).
Qed.

(** X30: In the resolved data every member has its user: an id under which a
    member is decoded is an id under which a user is decoded. *)
Theorem resolved_members_have_users users members us ms :
  resolve users members = Some (us, ms) →
  ∀ key, is_Some (ms !! key) → is_Some (us !! key).
Proof.
  unfold resolve. intros Hres.
  destruct (decode_users users ∅) as [us'|] eqn:Hus; [|done].
  destruct (decode_members users members ∅) as [ms'|] eqn:Hms; [|done].
  injection Hres as <- <-.
  apply (decode_members_within users us' members ∅ ms' Hus Hms).
  intros key [? Hkey]. by rewrite lookup_empty in Hkey.
Qed.

End ResolvedProps.

Lemma resolved_members_have_users_witness :
  is_Some (({[1 := JDict [("id", JStr "1")]]} : gmap Z json) !! 1).
Proof.
  apply (@resolved_members_have_users Resolved.raw_models
           [("1", JDict [("id", JStr "1")])]
           [("1", JDict [("nick", JStr "a")]); ("2", JDict [("nick", JStr "b")])]
           {[1 := JDict [("id", JStr "1")]]}
           {[1 := (JDict [("id", JStr "1")], JDict [("nick", JStr "a")])]} ).
  - vm_compute. reflexivity.
  - eexists. reflexivity.
Defined.
